(** * RegionSamplingThread: the luma sampler and the listener registry

    A shallow embedding of
    [services/surfaceflinger/RegionSamplingThread.cpp]:
    - [Int32], [Float32], [Rect]: the machine data the code computes with;
    - [getLuma], [sampleArea], [sampleBuffer]: the histogram sampler;
    - [addListener], [removeListener], [sampleNow], [binderDied],
      [captureSample]: the registry and one sampling pass, over an explicit
      shared state, an explicit mutex flag and a trace of the calls made
      into the collaborators;
    - [captureSampleSteps]: the same pass step by step, with its reads of
      the guarded members and the calls of other threads between
      [mMutex.unlock()] and [mMutex.lock()]. *)

From Stdlib Require Import ZArith Lia List Bool.
From Stdlib Require Import Floats.SpecFloat.
From stdpp Require Import base option list list_numbers gmap.

Local Open Scope Z_scope.

(* ===================================================================== *)
(** ** Machine integers *)

Module Int32.
(** [int32_t] arithmetic: the result of an operation is reduced into
    [-2^31, 2^31). *)
Definition min_signed : Z := - 2 ^ 31.
Definition max_signed : Z := 2 ^ 31 - 1.
Definition wrap (x : Z) : Z := (x + 2 ^ 31) mod 2 ^ 32 - 2 ^ 31.
Definition in_range (x : Z) : Prop := min_signed <= x <= max_signed.

Definition add (x y : Z) : Z := wrap (x + y).
Definition sub (x y : Z) : Z := wrap (x - y).
Definition mul (x y : Z) : Z := wrap (x * y).
(** C++ [/] on integers truncates towards zero. *)
Definition div (x y : Z) : Z := wrap (Z.quot x y).
End Int32.

(* ===================================================================== *)
(** ** IEEE-754 binary32 ([float]) *)

Module Float32.
Definition prec : Z := 24.
Definition emax : Z := 128.

Definition float : Type := spec_float.

(** Conversion of an integer to [float] (round to nearest even). *)
Definition of_Z (n : Z) : float := binary_normalize prec emax n 0 false.

Definition add : float -> float -> float := SFadd prec emax.
Definition mul : float -> float -> float := SFmul prec emax.
Definition div : float -> float -> float := SFdiv prec emax.
Definition eqb : float -> float -> bool := SFeqb.
Definition leb : float -> float -> bool := SFleb.

(** The literal [n/d] written in decimal, e.g. [0.2126f] is
    [decimal 2126 10000]: the binary32 value nearest to the quotient. *)
Definition decimal (n d : Z) : float := div (of_Z n) (of_Z d).

Definition zero : float := S754_zero false.
Definition one : float := of_Z 1.
Definition half : float := decimal 5 10.

(** [std::round]: the nearest integral value, halfway cases away from
    zero, again as a [float]. *)
Definition nearest_away (m : positive) (e : Z) : Z :=
  if 0 <=? e then Z.pos m * 2 ^ e
  else (Z.pos m + 2 ^ (- e - 1)) / 2 ^ (- e).

Definition round (x : float) : float :=
  match x with
  | S754_finite s m e =>
      binary_normalize prec emax (cond_Zopp s (nearest_away m e)) 0 s
  | _ => x
  end.

(** Conversion of a [float] to an integer type truncates towards zero. *)
Definition truncate (x : float) : Z :=
  match x with
  | S754_finite s m e =>
      cond_Zopp s (if 0 <=? e then Z.pos m * 2 ^ e else Z.pos m / 2 ^ (- e))
  | _ => 0
  end.

(** Conversion to [uint8_t]; the eight low bits are kept. *)
Definition to_uint8 (x : float) : Z := truncate x mod 256.
End Float32.

(* ===================================================================== *)
(** ** Rectangles *)

Module Rect.
(** Modelled from the spec: [Rect] and [Point] ([ui/Rect.h], [ui/Point.h])
    are declared outside [RegionSamplingThread.cpp].  A rectangle has four
    [int32_t] edges, its width is [right - left], its height
    [bottom - top], and subtracting a point translates it. *)
Record t : Type := make { left : Z; top : Z; right : Z; bottom : Z }.

Record Point : Type := point { x : Z; y : Z }.

Definition getWidth (r : t) : Z := Int32.sub (right r) (left r).
Definition getHeight (r : t) : Z := Int32.sub (bottom r) (top r).
Definition leftTop (r : t) : Point := point (left r) (top r).

(** [operator-(const Point&)] *)
Definition minus (r : t) (p : Point) : t :=
  make (Int32.sub (left r) (x p)) (Int32.sub (top r) (y p))
       (Int32.sub (right r) (x p)) (Int32.sub (bottom r) (y p)).

#[global] Instance eq_dec : EqDecision t.
Proof. solve_decision. Defined.
End Rect.

(* ===================================================================== *)
(** ** The histogram sampler *)

Definition rec709_red_primary : Float32.float := Float32.decimal 2126 10000.
Definition rec709_green_primary : Float32.float := Float32.decimal 7152 10000.
Definition rec709_blue_primary : Float32.float := Float32.decimal 722 10000.
Definition f255 : Float32.float := Float32.of_Z 255.

(** Using Rec. 709 primaries *)
Definition getLuma (r g b : Float32.float) : Float32.float :=
  Float32.add
    (Float32.add (Float32.mul rec709_red_primary r)
                 (Float32.mul rec709_green_primary g))
    (Float32.mul rec709_blue_primary b).

(** The three channels of a [uint32_t] pixel, each divided by [255.0f]. *)
Definition red (pixel : Z) : Float32.float :=
  Float32.div (Float32.of_Z (Z.land pixel 255)) f255.
Definition green (pixel : Z) : Float32.float :=
  Float32.div (Float32.of_Z (Z.land (Z.shiftr pixel 8) 255)) f255.
Definition blue (pixel : Z) : Float32.float :=
  Float32.div (Float32.of_Z (Z.land (Z.shiftr pixel 16) 255)) f255.

Definition pixelLuma (pixel : Z) : Float32.float :=
  getLuma (red pixel) (green pixel) (blue pixel).

(** [const uint8_t luma = std::round(getLuma(r, g, b) * 255.0f)] *)
Definition lumaLevel (pixel : Z) : Z :=
  Float32.to_uint8 (Float32.round (Float32.mul (pixelLuma pixel) f255)).

(** What a call of [sampleArea] does: it returns from inside the scan
    ([luma / 255.0f]), it returns after the cumulative loop
    ([bucket / 255.0f]), or it reads outside the pixel buffer or outside
    [brightnessBuckets], which is undefined behaviour. *)
Inductive outcome : Type :=
| Majority (luma : Z)
| Cumulative (bucket : Z)
| PixelOutOfRange (index : Z)
| BucketOutOfRange (bucket : Z).

#[global] Instance outcome_eq_dec : EqDecision outcome.
Proof. solve_decision. Defined.

(** The [float] a call returns, when it returns one. *)
Definition returned (o : outcome) : option Float32.float :=
  match o with
  | Majority luma => Some (Float32.div (Float32.of_Z luma) f255)
  | Cumulative bucket => Some (Float32.div (Float32.of_Z bucket) f255)
  | PixelOutOfRange _ | BucketOutOfRange _ => None
  end.

Definition in_unit_interval (v : Float32.float) : bool :=
  Float32.leb Float32.zero v && Float32.leb v Float32.one.

(** [std::array<int32_t, 256> brightnessBuckets = {}] *)
Definition bucketCount : nat := 256.
Definition emptyBuckets : list Z := replicate bucketCount 0.

(** [data[index]]: the buffer holds [length data] pixels. *)
Definition readPixel (data : list Z) (index : Z) : option Z :=
  if 0 <=? index then data !! Z.to_nat index else None.

(** [brightnessBuckets[luma]] for a [uint8_t luma]. *)
Definition bucketAt (brightnessBuckets : list Z) (luma : Z) : Z :=
  default 0 (brightnessBuckets !! Z.to_nat luma).

(** [++brightnessBuckets[luma]] *)
Definition increment (brightnessBuckets : list Z) (luma : Z) : list Z :=
  <[Z.to_nat luma := Int32.add (bucketAt brightnessBuckets luma) 1]>
    brightnessBuckets.

(** The state of the scan: still scanning with these bucket counts, or
    the function has returned. *)
Inductive scan : Type :=
| Scanning (brightnessBuckets : list Z)
| Returned (o : outcome).

(** The body of the two [for] loops, for the pixel at [index]. *)
Definition scanPixel (data : list Z) (majoritySampleNum : Z)
    (brightnessBuckets : list Z) (index : Z) : scan :=
  match readPixel data index with
  | None => Returned (PixelOutOfRange index)
  | Some pixel =>
      let luma := lumaLevel pixel in
      let brightnessBuckets := increment brightnessBuckets luma in
      if majoritySampleNum <? bucketAt brightnessBuckets luma
      then Returned (Majority luma)
      else Scanning brightnessBuckets
  end.

(** [for (column = area.left; column < area.right; ++column)] over
    [rowBase = data + row * stride]. *)
Fixpoint scanColumns (data : list Z) (majoritySampleNum rowBase : Z)
    (columns : list Z) (brightnessBuckets : list Z) : scan :=
  match columns with
  | [] => Scanning brightnessBuckets
  | column :: columns' =>
      match scanPixel data majoritySampleNum brightnessBuckets
                      (rowBase + column) with
      | Scanning brightnessBuckets' =>
          scanColumns data majoritySampleNum rowBase columns' brightnessBuckets'
      | Returned o => Returned o
      end
  end.

(** [for (row = area.top; row < area.bottom; ++row)] *)
Fixpoint scanRows (data : list Z) (stride majoritySampleNum : Z)
    (rows columns : list Z) (brightnessBuckets : list Z) : scan :=
  match rows with
  | [] => Scanning brightnessBuckets
  | row :: rows' =>
      match scanColumns data majoritySampleNum (Int32.mul row stride)
                        columns brightnessBuckets with
      | Scanning brightnessBuckets' =>
          scanRows data stride majoritySampleNum rows' columns brightnessBuckets'
      | Returned o => Returned o
      end
  end.

(** [while (bucket++ < brightnessBuckets.size())]: [remaining] is
    [brightnessBuckets.size() - bucket], so the test succeeds exactly when
    [remaining] is a successor; [bucket] is incremented whether the test
    succeeds or not, and before the body runs. *)
Fixpoint accumulate (brightnessBuckets : list Z) (majoritySampleNum : Z)
    (remaining : nat) (bucket accumulated : Z) : outcome :=
  match remaining with
  | O => Cumulative (bucket + 1)
  | S remaining' =>
      let bucket := bucket + 1 in
      match brightnessBuckets !! Z.to_nat bucket with
      | None => BucketOutOfRange bucket
      | Some count =>
          let accumulated := Int32.add accumulated count in
          if majoritySampleNum <? accumulated then Cumulative bucket
          else accumulate brightnessBuckets majoritySampleNum remaining'
                          bucket accumulated
      end
  end.

Definition majorityOf (area : Rect.t) : Z :=
  Int32.div (Int32.mul (Rect.getWidth area) (Rect.getHeight area)) 2.

Definition rowsOf (area : Rect.t) : list Z :=
  seqZ (Rect.top area) (Rect.bottom area - Rect.top area).
Definition columnsOf (area : Rect.t) : list Z :=
  seqZ (Rect.left area) (Rect.right area - Rect.left area).

Definition sampleArea (data : list Z) (stride : Z) (area : Rect.t) : outcome :=
  let brightnessBuckets := emptyBuckets in
  let majoritySampleNum := majorityOf area in
  match scanRows data stride majoritySampleNum (rowsOf area) (columnsOf area)
                 brightnessBuckets with
  | Returned o => o
  | Scanning brightnessBuckets =>
      accumulate brightnessBuckets majoritySampleNum
                 (length brightnessBuckets) 0 0
  end.

Definition black : Z := 0.
Definition white : Z := 16777215.

(** [sampleBuffer]: [lock] hands out the pixel data, or a null pointer. *)
Record GraphicBuffer : Type := {
  lockedData : option (list Z);
  getStride : Z;
}.

(* ===================================================================== *)
(** ** Listeners, layers and descriptors *)

(** Binder objects, listeners and layers are compared by address only: each
    is represented by an identity. *)
Abbreviation IBinder := positive.
Abbreviation Listener := positive.
Abbreviation LayerId := positive.

(** [wp<Layer>]: [None] is the null reference. *)
Abbreviation WeakLayer := (option positive).

(** [Layer::Handle], of which only [owner] is used. *)
Record Handle : Type := { owner : WeakLayer }.

(** A layer as [filterVisitor] sees it: its address, and
    [transform.transform(Rect(layer->getBounds()), roundOutwards)]. *)
Record Layer : Type := {
  layerId : LayerId;
  transformed : Rect.t;
}.

Record Descriptor : Type := {
  area : Rect.t;
  stopLayer : WeakLayer;
  listener : Listener;
}.

#[global] Instance Descriptor_eq_dec : EqDecision Descriptor.
Proof. solve_decision. Defined.

(** The functions of other classes that the code calls and whose bodies
    are not part of [RegionSamplingThread.cpp]. *)
Class Collaborators : Type := {
  (** [IInterface::asBinder] *)
  asBinder : Listener -> IBinder;
  (** [Rect::intersect(with, &result)], the flag it returns *)
  intersect : Rect.t -> Rect.t -> bool;
  (** [Region::bounds] after [orSelf] of these areas, in this order *)
  regionBounds : list Rect.t -> Rect.t;
}.

(* ===================================================================== *)
(** ** The shared state and its mutex *)

(** Modelled from the spec: the members are declared in
    [RegionSamplingThread.h], not in [RegionSamplingThread.cpp].
    [mDescriptors]
    is a mapping with unique keys from the listener's binder to its
    descriptor (a [std::unordered_map]); [mSampleRequested] and [mRunning]
    are the two flags; all three are guarded by [mMutex]. *)
Record State : Type := {
  mDescriptors : gmap positive Descriptor;
  mSampleRequested : bool;
  mRunning : bool;
}.

(** The calls this object makes into its collaborators, in order. *)
Inductive Event : Type :=
| LinkToDeath (who : IBinder)
| MutexUnlock
| CaptureScreenCore (rendered : list LayerId)
| MutexLock
| OnSampleCollected (listener : Listener) (luma : outcome).

#[global] Instance Event_eq_dec : EqDecision Event.
Proof. solve_decision. Defined.

(** [mutexHeld] tells whether the sampling thread holds [mMutex].  The
    other threads hold it only inside a [std::lock_guard] block, which is
    one step here. *)
Record World : Type := {
  shared : State;
  mutexHeld : bool;
  trace : list Event;
}.

Definition emit (e : Event) (w : World) : World :=
  {| shared := shared w; mutexHeld := mutexHeld w; trace := trace w ++ [e] |}.

(** A block under [std::lock_guard lock(mMutex)] run by a thread other
    than the sampling thread: it cannot start while the sampling thread
    holds the mutex ([None]: the caller stays blocked). *)
Definition lock_guard (body : State -> State) (w : World) : option World :=
  if mutexHeld w then None
  else Some {| shared := body (shared w); mutexHeld := false; trace := trace w |}.

(** [mMutex.unlock()] and [mMutex.lock()] on the sampling thread.  Unlocking
    a mutex that is not held is undefined; locking one that this thread
    already holds never returns. *)
Definition mutexUnlock (w : World) : option World :=
  if mutexHeld w
  then Some {| shared := shared w; mutexHeld := false;
               trace := trace w ++ [MutexUnlock] |}
  else None.

Definition mutexLock (w : World) : option World :=
  if mutexHeld w then None
  else Some {| shared := shared w; mutexHeld := true;
               trace := trace w ++ [MutexLock] |}.

(** [std::unordered_map::emplace]: nothing is inserted when the key is
    already present. *)
Definition emplace (key : IBinder) (descriptor : Descriptor)
    (descriptors : gmap positive Descriptor) : gmap positive Descriptor :=
  match descriptors !! key with
  | Some _ => descriptors
  | None => <[key := descriptor]> descriptors
  end.

Definition setDescriptors (f : gmap positive Descriptor -> gmap positive Descriptor)
    (s : State) : State :=
  {| mDescriptors := f (mDescriptors s);
     mSampleRequested := mSampleRequested s;
     mRunning := mRunning s |}.

Definition setSampleRequested (b : bool) (s : State) : State :=
  {| mDescriptors := mDescriptors s;
     mSampleRequested := b;
     mRunning := mRunning s |}.

Section Engine.
Context `{Collaborators}.

Definition addListener (samplingArea : Rect.t) (stopLayerHandle : option Handle)
    (listener : Listener) (w : World) : option World :=
  let stopLayer :=
    match stopLayerHandle with
    | Some handle => owner handle
    | None => None
    end in
  let binder := asBinder listener in
  let w := emit (LinkToDeath binder) w in
  lock_guard
    (setDescriptors
       (emplace binder
          {| area := samplingArea; stopLayer := stopLayer;
             listener := listener |})) w.

Definition removeListener (listener : Listener) (w : World) : option World :=
  lock_guard (setDescriptors (delete (asBinder listener))) w.

Definition sampleNow (w : World) : option World :=
  lock_guard (setSampleRequested true) w.

Definition binderDied (who : IBinder) (w : World) : option World :=
  lock_guard (setDescriptors (delete who)) w.

(** A call of a public entry point from another thread. *)
Inductive Call : Type :=
| CallAddListener (samplingArea : Rect.t) (stopLayerHandle : option Handle)
                  (listener : Listener)
| CallRemoveListener (listener : Listener)
| CallSampleNow
| CallBinderDied (who : IBinder).

Definition runCall (c : Call) (w : World) : option World :=
  match c with
  | CallAddListener samplingArea stopLayerHandle listener =>
      addListener samplingArea stopLayerHandle listener w
  | CallRemoveListener listener => removeListener listener w
  | CallSampleNow => sampleNow w
  | CallBinderDied who => binderDied who w
  end.

Fixpoint runCalls (cs : list Call) (w : World) : option World :=
  match cs with
  | [] => Some w
  | c :: cs' => w' ← runCall c w; runCalls cs' w'
  end.

(** What the compositor does during one [captureScreenCore]: the layers
    that [traverseLayersInDisplay] hands to the visitor, in order; the
    calls other threads make into this object meanwhile; the buffer once
    the capture is done. *)
Record Capture : Type := {
  layers : list Layer;
  reentrant : list Call;
  captured : GraphicBuffer;
}.

(** The variables [filterVisitor] captures by reference, and the layers
    it has passed on to [visitor]. *)
Record Traversal : Type := {
  stopLayerFound : bool;
  listeners : gset positive;
  rendered : list LayerId;
}.

(** The first loop of [filterVisitor]:
    [layer == stopLayer.promote().get()] for some descriptor. *)
Definition isStopLayer (descriptors : list Descriptor) (layer : Layer) : bool :=
  existsb (fun d => bool_decide (stopLayer d = Some (layerId layer)))
          descriptors.

(** The second loop of [filterVisitor], on
    [(intersectsAnyArea, listeners)]. *)
Definition markIntersecting (rect : Rect.t) (descriptors : list Descriptor)
    (start : bool * gset positive) : bool * gset positive :=
  foldl (fun acc d =>
           if intersect rect (area d)
           then (true, {[listener d]} ∪ acc.2)
           else acc)
        start descriptors.

Definition filterVisitor (descriptors : list Descriptor) (sampledArea : Rect.t)
    (t : Traversal) (layer : Layer) : Traversal :=
  if stopLayerFound t then t
  else if isStopLayer descriptors layer then
    {| stopLayerFound := true; listeners := listeners t;
       rendered := rendered t |}
  else if negb (intersect (transformed layer) sampledArea) then t
  else
    let '(intersectsAnyArea, listeners') :=
      markIntersecting (transformed layer) descriptors (false, listeners t) in
    if negb intersectsAnyArea then
      {| stopLayerFound := false; listeners := listeners';
         rendered := rendered t |}
    else
      {| stopLayerFound := false; listeners := listeners';
         rendered := rendered t ++ [layerId layer] |}.

(** [traverseLayers]: a fresh [stopLayerFound], the [listeners] of the
    enclosing call. *)
Definition traverseLayers (descriptors : list Descriptor) (sampledArea : Rect.t)
    (listeners0 : gset positive) (ls : list Layer) : Traversal :=
  foldl (filterVisitor descriptors sampledArea)
        {| stopLayerFound := false; listeners := listeners0; rendered := [] |}
        ls.

(** [mFlinger.captureScreenCore(renderArea, traverseLayers, buffer, false)]
    as seen from the sampling thread. *)
Definition captureScreenCore (env : Capture) (descriptors : list Descriptor)
    (sampledArea : Rect.t) (w : World) : option (gset positive * World) :=
  let t := traverseLayers descriptors sampledArea ∅ (layers env) in
  w ← runCalls (reentrant env) (emit (CaptureScreenCore (rendered t)) w);
  Some (listeners t, w).

Definition sampleBuffer (buffer : GraphicBuffer) (leftTop : Rect.Point)
    (descriptors : list Descriptor) : list outcome :=
  match lockedData buffer with
  | None => []
  | Some data =>
      let stride := getStride buffer in
      map (fun descriptor =>
             sampleArea data stride (Rect.minus (area descriptor) leftTop))
          descriptors
  end.

(** The snapshot loop at the head of [captureSample]. *)
Definition snapshot (s : State) : list Descriptor :=
  (map_to_list (mDescriptors s)).*2.

Definition activeOf (listeners : gset positive) (descriptors : list Descriptor)
    : list Descriptor :=
  filter (fun d => listener d ∈ listeners) descriptors.

(** The last loop of [captureSample]. *)
Definition deliver (activeDescriptors : list Descriptor) (lumas : list outcome)
    (w : World) : World :=
  foldl (fun w d =>
           match activeDescriptors !! d, lumas !! d with
           | Some descriptor, Some luma =>
               emit (OnSampleCollected (listener descriptor) luma) w
           | _, _ => w
           end)
        w (seq 0 (length activeDescriptors)).

(** [captureSample], called by [threadMain] with [mMutex] held. *)
Definition captureSample (env : Capture) (w : World) : option World :=
  if bool_decide (mDescriptors (shared w) = ∅) then Some w
  else
    let descriptors := snapshot (shared w) in
    let sampledArea := regionBounds (area <$> descriptors) in
    w ← mutexUnlock w;
    '(listeners, w) ← captureScreenCore env descriptors sampledArea w;
    w ← mutexLock w;
    let activeDescriptors := activeOf listeners descriptors in
    let lumas :=
      sampleBuffer (captured env) (Rect.leftTop sampledArea) activeDescriptors in
    if bool_decide (length lumas ≠ length activeDescriptors) then Some w
    else Some (deliver activeDescriptors lumas w).

(** The luma values and the active descriptors of the pass that starts
    from [s], as [captureSample] computes them. *)
Definition passActive (env : Capture) (s : State) : list Descriptor :=
  let descriptors := snapshot s in
  let sampledArea := regionBounds (area <$> descriptors) in
  activeOf (listeners (traverseLayers descriptors sampledArea ∅ (layers env)))
           descriptors.

Definition passLumas (env : Capture) (s : State) : list outcome :=
  let descriptors := snapshot s in
  let sampledArea := regionBounds (area <$> descriptors) in
  sampleBuffer (captured env) (Rect.leftTop sampledArea) (passActive env s).

(** The callbacks in a trace. *)
Definition callbacks (events : list Event) : list (positive * outcome) :=
  omap (fun e => match e with
                 | OnSampleCollected l v => Some (l, v)
                 | _ => None
                 end) events.

(** Every descriptor is filed under the binder of its own listener. *)
Definition registry_wf (s : State) : Prop :=
  map_Forall (fun key d => asBinder (listener d) = key) (mDescriptors s).
End Engine.

(* ===================================================================== *)
(** ** Vocabulary of the statements *)

(** The buffer offsets [sampleArea] visits when it scans the whole of
    [area], in the order of the scan, and the pixels found there. *)
Definition areaIndices (stride : Z) (area : Rect.t) : list Z :=
  row ← rowsOf area; (fun column => Int32.mul row stride + column) <$> columnsOf area.

Definition areaPixels (data : list Z) (stride : Z) (area : Rect.t)
    : option (list Z) :=
  mapM (readPixel data) (areaIndices stride area).

(** How many of [levels] are [level]. *)
Definition countLevel (level : Z) (levels : list Z) : Z :=
  Z.of_nat (length (filter (fun l => l = level) levels)).

(** The area of the rectangle is an [int32_t]: [getWidth() * getHeight()]
    does not overflow. *)
Definition areaFits (area : Rect.t) : Prop :=
  (Rect.right area - Rect.left area) * (Rect.bottom area - Rect.top area)
  <= Int32.max_signed.

(** The scan of a list of offsets, one rectangle row after the other. *)
Fixpoint scanIndices (data : list Z) (majoritySampleNum : Z)
    (indices : list Z) (brightnessBuckets : list Z) : scan :=
  match indices with
  | [] => Scanning brightnessBuckets
  | index :: indices' =>
      match scanPixel data majoritySampleNum brightnessBuckets index with
      | Scanning brightnessBuckets' =>
          scanIndices data majoritySampleNum indices' brightnessBuckets'
      | Returned o => Returned o
      end
  end.

(** The fallback as section 4.2 of the specification words it: the
    smallest level whose cumulative count, from level 0 upward, exceeds the
    threshold. *)
Fixpoint specCumulativeFrom (level accumulated threshold : Z)
    (brightnessBuckets : list Z) : option Z :=
  match brightnessBuckets with
  | [] => None
  | count :: rest =>
      if threshold <? accumulated + count then Some level
      else specCumulativeFrom (level + 1) (accumulated + count) threshold rest
  end.

Definition specCumulativeLevel (threshold : Z) (brightnessBuckets : list Z)
    : option Z :=
  specCumulativeFrom 0 0 threshold brightnessBuckets.

(** The bucket counts of a list of levels. *)
Definition histogram (levels : list Z) : list Z :=
  foldl increment emptyBuckets levels.

(** A pixel with the same value [c] in its three colour channels. *)
Definition grey (c : Z) : Z := c + c * 256 + c * 65536.

(** A pixel whose luma is exactly [0.5f]. *)
Definition halfLumaPixel : Z := 13 + 163 * 256 + 113 * 65536.

(** Collaborators for the examples: a listener is its own binder, two
    rectangles intersect when they share a pixel, and the bounds of a
    region are the smallest rectangle around its areas. *)
Definition rectIntersect (a b : Rect.t) : bool :=
  (Z.max (Rect.left a) (Rect.left b) <? Z.min (Rect.right a) (Rect.right b))
  && (Z.max (Rect.top a) (Rect.top b) <? Z.min (Rect.bottom a) (Rect.bottom b)).

Definition boundingBox (areas : list Rect.t) : Rect.t :=
  match areas with
  | [] => Rect.make 0 0 0 0
  | a :: rest =>
      foldl (fun acc r =>
               Rect.make (Z.min (Rect.left acc) (Rect.left r))
                         (Z.min (Rect.top acc) (Rect.top r))
                         (Z.max (Rect.right acc) (Rect.right r))
                         (Z.max (Rect.bottom acc) (Rect.bottom r)))
            a rest
  end.

Definition exampleCollaborators : Collaborators :=
  {| asBinder := fun l => l;
     intersect := rectIntersect;
     regionBounds := boundingBox |}.

(** Two registered listeners, the second with layer 7 as its stop layer, in
    a world where the mutex is free and in one where the sampling thread
    holds it. *)
Definition descriptorA : Descriptor :=
  {| area := Rect.make 0 0 10 10; stopLayer := None; listener := 1%positive |}.
Definition descriptorB : Descriptor :=
  {| area := Rect.make 5 5 15 15; stopLayer := Some 7%positive;
     listener := 2%positive |}.

Definition exampleState : State :=
  {| mDescriptors := {[ 1%positive := descriptorA; 2%positive := descriptorB ]};
     mSampleRequested := false;
     mRunning := true |}.

Definition callerWorld : World :=
  {| shared := exampleState; mutexHeld := false; trace := [] |}.
Definition workerWorld : World :=
  {| shared := exampleState; mutexHeld := true; trace := [] |}.

(** A capture that visits a layer over the corner of the first area, then
    layer 7, then a layer over the whole screen, while another thread
    requests a sample; the buffer comes back white. *)
Definition cornerLayer : Layer :=
  {| layerId := 3%positive; transformed := Rect.make 0 0 4 4 |}.
Definition boundaryLayer : Layer :=
  {| layerId := 7%positive; transformed := Rect.make 0 0 20 20 |}.
Definition screenLayer : Layer :=
  {| layerId := 9%positive; transformed := Rect.make 0 0 20 20 |}.

Definition exampleLayers : list Layer :=
  [cornerLayer; boundaryLayer; screenLayer].

Definition whiteBuffer : GraphicBuffer :=
  {| lockedData := Some (replicate 225 white); getStride := 15 |}.

Definition exampleCapture : Capture :=
  {| layers := exampleLayers; reentrant := [CallSampleNow];
     captured := whiteBuffer |}.

Definition quietCapture : Capture :=
  {| layers := exampleLayers; reentrant := []; captured := whiteBuffer |}.

(** The same capture, after which the buffer cannot be locked. *)
Definition failedCapture : Capture :=
  {| layers := exampleLayers; reentrant := [CallSampleNow];
     captured := {| lockedData := None; getStride := 15 |} |}.

(** How many of [levels] lie from 1 to [k]: what the cumulative loop has
    added up when it has read entry [k]. *)
Definition countUpTo (k : Z) (levels : list Z) : Z :=
  Z.of_nat (length (filter (fun l => 1 <= l <= k) levels)).

(** The three colour channels of a pixel, without the fourth byte. *)
Definition colour (pixel : Z) : Z := Z.land pixel 16777215.

(** The layers of a traversal that come before its first stop layer. *)
Fixpoint beforeStop (descriptors : list Descriptor) (ls : list Layer) : list Layer :=
  match ls with
  | [] => []
  | layer :: rest =>
      if isStopLayer descriptors layer then []
      else layer :: beforeStop descriptors rest
  end.

(** The two tests of [filterVisitor] on the position of a layer: the layer
    intersects the sampled area, and it intersects the area of some
    descriptor. *)
Definition intersectsSample `{Collaborators} (descriptors : list Descriptor)
    (sampledArea : Rect.t) (layer : Layer) : bool :=
  intersect (transformed layer) sampledArea
  && existsb (fun d => intersect (transformed layer) (area d)) descriptors.

(* ===================================================================== *)
(** ** The sampling thread *)

Definition setRunning (b : bool) (s : State) : State :=
  {| mDescriptors := mDescriptors s;
     mSampleRequested := mSampleRequested s;
     mRunning := b |}.

(** The sampling thread takes or gives up [mMutex] without a call of its
    own: at the two ends of the [std::lock_guard] of [threadMain], and
    inside [mCondition.wait]. *)
Definition setMutex (held : bool) (w : World) : World :=
  {| shared := shared w; mutexHeld := held; trace := trace w |}.

Definition setShared (f : State -> State) (w : World) : World :=
  {| shared := f (shared w); mutexHeld := mutexHeld w; trace := trace w |}.

(** What another thread asks of this object: a call of a public entry
    point, or its destruction. *)
Inductive Request : Type :=
| Public (c : Call)
| Destroy.

(** The outcome of [mCondition.wait]: the thread has woken up with the
    mutex and the predicate true; it sleeps and nothing more happens;
    another thread is blocked on the mutex. *)
Inductive Wait : Type :=
| Woken (batches : list (list Request)) (w : World)
| Sleeping (w : World)
| Blocked.

(** The outcome of [threadMain] on a script: it has returned; it sleeps in
    [mCondition.wait] at the end of the script; a pass is due and the
    script holds no capture for it; it is blocked; the fuel is used up. *)
Inductive Thread : Type :=
| Finished (w : World)
| Asleep (w : World)
| Starved (w : World)
| Stuck
| OutOfFuel.

Section Thread.
Context `{Collaborators}.

(** The first block of [~RegionSamplingThread]: [mRunning = false] under
    [mMutex], then [notify_one]. *)
Definition destroy (w : World) : option World :=
  lock_guard (setRunning false) w.

Definition runRequest (r : Request) (w : World) : option World :=
  match r with
  | Public c => runCall c w
  | Destroy => destroy w
  end.

Fixpoint runRequests (rs : list Request) (w : World) : option World :=
  match rs with
  | [] => Some w
  | r :: rs' => w' ← runRequest r w; runRequests rs' w'
  end.

(** The predicate of the wait: [mSampleRequested || !mRunning]. *)
Definition wakeUp (s : State) : bool :=
  mSampleRequested s || negb (mRunning s).

(** [mCondition.wait(mMutex, pred)]: as long as the predicate is false the
    thread gives up the mutex and sleeps; the other threads run the
    requests of one batch; the thread wakes up, takes the mutex and tests
    the predicate again.  An empty batch is a wake-up for no reason. *)
Fixpoint conditionWait (batches : list (list Request)) (w : World) : Wait :=
  if wakeUp (shared w) then Woken batches w
  else
    match batches with
    | [] => Sleeping (setMutex false w)
    | batch :: batches' =>
        match runRequests batch (setMutex false w) with
        | None => Blocked
        | Some w' => conditionWait batches' (setMutex true w')
        end
    end.

(** The loop of [threadMain], entered with the mutex held.  [captures]
    holds one capture for each pass to come, [batches] what the other
    threads do during the waits to come. *)
Fixpoint threadLoop (fuel : nat) (captures : list Capture)
    (batches : list (list Request)) (w : World) : Thread :=
  match fuel with
  | O => OutOfFuel
  | S fuel' =>
      if mRunning (shared w) then
        let pass :=
          if mSampleRequested (shared w) then
            match captures with
            | [] => inl (Starved w)
            | env :: captures' =>
                match captureSample env
                        (setShared (setSampleRequested false) w) with
                | None => inl Stuck
                | Some w' => inr (captures', w')
                end
            end
          else inr (captures, w) in
        match pass with
        | inl outcome => outcome
        | inr (captures', w') =>
            match conditionWait batches w' with
            | Woken batches' w'' => threadLoop fuel' captures' batches' w''
            | Sleeping w'' => Asleep w''
            | Blocked => Stuck
            end
        end
      else Finished (setMutex false w)
  end.

(** [threadMain]: the [std::lock_guard] at its head, then the loop.  A turn
    of the loop that does not end the run uses up a capture or a batch, so
    the fuel given here is never used up. *)
Definition threadMain (captures : list Capture) (batches : list (list Request))
    (w : World) : Thread :=
  if mutexHeld w then Stuck
  else threadLoop (S (length captures + length batches)) captures batches
                  (setMutex true w).
End Thread.

(** The requests that change the registry only. *)
Definition registryRequest (r : Request) : bool :=
  match r with
  | Public (CallAddListener _ _ _) | Public (CallRemoveListener _)
  | Public (CallBinderDied _) => true
  | Public CallSampleNow | Destroy => false
  end.

(** The example state with a sample requested, a handle on layer 7, and a
    few calls of the public entry points. *)
Definition requestedWorld : World :=
  {| shared := setSampleRequested true exampleState; mutexHeld := false;
     trace := [] |}.

Definition boundaryHandle : Handle := {| owner := Some 7%positive |}.

Definition exampleCalls : list Call :=
  [CallAddListener (Rect.make 0 0 9 9) (Some boundaryHandle) 3%positive;
   CallRemoveListener 1%positive;
   CallSampleNow;
   CallBinderDied 5%positive].

(* ===================================================================== *)
(** ** The steps of one pass *)

(** The three members that [mMutex] guards. *)
Inductive Member : Type := MDescriptors | MSampleRequested | MRunning.

(** One step of a run, in the order of execution: the sampling thread
    reads a guarded member, it writes one, it makes a call, or another
    thread completes a call of a public entry point. *)
Inductive Step : Type :=
| Reads (m : Member)
| Writes (m : Member)
| Does (e : Event)
| Elsewhere (c : Call).

(** The sampling thread at work: the world, and the steps so far. *)
Record Run : Type := {
  world : World;
  steps : list Step;
}.

(** A piece of code of the sampling thread: it yields a value and goes on,
    or it never returns ([None]). *)
Definition Worker (A : Type) : Type := Run -> option (A * Run).

#[global] Instance Worker_ret : MRet Worker := fun A a r => Some (a, r).

#[global] Instance Worker_bind : MBind Worker :=
  fun A B k m r =>
    match m r with
    | Some (a, r') => k a r'
    | None => None
    end.

(** The sampling thread evaluates an expression over the member [m]. *)
Definition reads {A : Type} (m : Member) (get : State -> A) : Worker A :=
  fun r =>
    Some (get (shared (world r)),
          {| world := world r; steps := steps r ++ [Reads m] |}).

(** A step that changes the world the way [f] does and adds [log] to the
    steps. *)
Definition onWorld (f : World -> option World) (log : list Step) : Worker unit :=
  fun r =>
    match f (world r) with
    | Some w => Some (tt, {| world := w; steps := steps r ++ log |})
    | None => None
    end.

(** [mMutex.unlock()] and [mMutex.lock()] on the sampling thread. *)
Definition unlock : Worker unit := onWorld mutexUnlock [Does MutexUnlock].
Definition lock : Worker unit := onWorld mutexLock [Does MutexLock].

(** A call of the sampling thread into a collaborator. *)
Definition does (e : Event) : Worker unit :=
  onWorld (fun w => Some (emit e w)) [Does e].

(** [for (size_t d = 0; d < size; ++d)] *)
Fixpoint forEach (ds : list nat) (body : nat -> Worker unit) : Worker unit :=
  match ds with
  | [] => mret tt
  | d :: ds' => body d;; forEach ds' body
  end.

(** What the other threads do while the sampling thread is between
    [mMutex.unlock()] and [mMutex.lock()]: the calls they complete before
    the sampling thread calls [captureScreenCore], and the capture itself,
    with the calls they complete from then on. *)
Record Window : Type := {
  early : list Call;
  capture : Capture;
}.

Section Steps.
Context `{Collaborators}.

(** The other threads complete the calls [cs]. *)
Definition elsewhere (cs : list Call) : Worker unit :=
  onWorld (runCalls cs) (Elsewhere <$> cs).

(** The last loop of [captureSample], call by call. *)
Definition deliverSteps (activeDescriptors : list Descriptor)
    (lumas : list outcome) : Worker unit :=
  forEach (seq 0 (length activeDescriptors))
    (fun d =>
       match activeDescriptors !! d, lumas !! d with
       | Some descriptor, Some luma =>
           does (OnSampleCollected (listener descriptor) luma)
       | _, _ => mret tt
       end).

(** [captureSample], step by step: every use of a guarded member is a
    [reads], every call a [does], and the other threads get their turn
    wherever the mutex is free. *)
Definition captureSampleSteps (env : Window) : Worker unit :=
  empty ← reads MDescriptors (fun s => bool_decide (mDescriptors s = ∅));
  if (empty : bool) then mret tt
  else
    descriptors ← reads MDescriptors snapshot;
    let sampledArea := regionBounds (area <$> descriptors) in
    unlock;;
    elsewhere (early env);;
    let t := traverseLayers descriptors sampledArea ∅ (layers (capture env)) in
    does (CaptureScreenCore (rendered t));;
    elsewhere (reentrant (capture env));;
    lock;;
    let activeDescriptors := activeOf (listeners t) descriptors in
    let lumas :=
      sampleBuffer (captured (capture env)) (Rect.leftTop sampledArea)
                   activeDescriptors in
    if bool_decide (length lumas ≠ length activeDescriptors) then mret tt
    else deliverSteps activeDescriptors lumas.

(** The call of [captureScreenCore] and the callbacks of the pass that
    starts from [s], as [captureSample] computes them. *)
Definition passCall (env : Capture) (s : State) : Event :=
  let descriptors := snapshot s in
  let sampledArea := regionBounds (area <$> descriptors) in
  CaptureScreenCore
    (rendered (traverseLayers descriptors sampledArea ∅ (layers env))).

Definition passDeliveries (env : Capture) (s : State) : list Event :=
  if decide (length (passLumas env s) = length (passActive env s))
  then zip_with (fun d v => OnSampleCollected (listener d) v)
                (passActive env s) (passLumas env s)
  else [].
End Steps.

(** The sampling thread's own steps among [log]. *)
Definition own (s : Step) : bool :=
  match s with
  | Elsewhere _ => false
  | _ => true
  end.

Definition ownSteps (log : list Step) : list Step :=
  filter (fun s => own s = true) log.

(** The steps of [log] up to the sampling thread's next [mMutex.lock()],
    and the steps between its first [mMutex.unlock()] and the
    [mMutex.lock()] that follows. *)
Fixpoint untilLock (log : list Step) : list Step :=
  match log with
  | [] => []
  | Does MutexLock :: _ => []
  | s :: rest => s :: untilLock rest
  end.

Fixpoint unlocked (log : list Step) : list Step :=
  match log with
  | [] => []
  | Does MutexUnlock :: rest => untilLock rest
  | _ :: rest => unlocked rest
  end.

(** The example capture, with a registration and a sample request that
    arrive before the sampling thread has called [captureScreenCore]. *)
Definition exampleWindow : Window :=
  {| early := [CallAddListener (Rect.make 0 0 9 9) None 3%positive;
               CallSampleNow];
     capture := exampleCapture |}.

(* ===================================================================== *)
(** ** Machine arithmetic *)

Lemma wrap_small (x : Z) : Int32.in_range x -> Int32.wrap x = x.
Proof.
  unfold Int32.in_range, Int32.min_signed, Int32.max_signed, Int32.wrap.
  intros Hx. rewrite Z.mod_small; lia.
Qed.

Lemma lumaLevel_range (pixel : Z) : 0 <= lumaLevel pixel < 256.
Proof. unfold lumaLevel, Float32.to_uint8. apply Z.mod_pos_bound. lia. Qed.

(* ===================================================================== *)
(** ** The bucket array *)

Lemma length_increment (buckets : list Z) (luma : Z) :
  length (increment buckets luma) = length buckets.
Proof. unfold increment. apply length_insert. Qed.

Lemma bucketAt_increment_eq (buckets : list Z) (luma : Z) :
  (Z.to_nat luma < length buckets)%nat ->
  bucketAt (increment buckets luma) luma = Int32.add (bucketAt buckets luma) 1.
Proof.
  intros Hlt. unfold increment. unfold bucketAt at 1.
  by rewrite list_lookup_insert_eq.
Qed.

Lemma bucketAt_increment_ne (buckets : list Z) (luma k : Z) :
  0 <= luma -> 0 <= k -> k <> luma ->
  bucketAt (increment buckets luma) k = bucketAt buckets k.
Proof.
  intros Hl Hk Hne. unfold increment. unfold bucketAt at 1.
  rewrite list_lookup_insert_ne; [done | lia].
Qed.

Lemma bucketAt_empty (k : Z) : bucketAt emptyBuckets k = 0.
Proof.
  unfold bucketAt, emptyBuckets.
  destruct (replicate bucketCount 0 !! Z.to_nat k) as [c|] eqn:E; [|done].
  by apply lookup_replicate in E as [-> _].
Qed.

(* ===================================================================== *)
(** ** Counting levels *)

Lemma countLevel_nil (k : Z) : countLevel k [] = 0.
Proof. reflexivity. Qed.

Lemma countLevel_cons (k x : Z) (l : list Z) :
  countLevel k (x :: l) = (if decide (x = k) then 1 else 0) + countLevel k l.
Proof.
  unfold countLevel. rewrite filter_cons.
  destruct (decide (x = k)); simpl; lia.
Qed.

Lemma countLevel_app (k : Z) (l1 l2 : list Z) :
  countLevel k (l1 ++ l2) = countLevel k l1 + countLevel k l2.
Proof. unfold countLevel. rewrite filter_app, length_app. lia. Qed.

Lemma countLevel_nonneg (k : Z) (l : list Z) : 0 <= countLevel k l.
Proof. unfold countLevel. lia. Qed.

Lemma countLevel_le_length (k : Z) (l : list Z) :
  countLevel k l <= Z.of_nat (length l).
Proof. unfold countLevel. pose proof (length_filter (fun x => x = k) l). lia. Qed.

Lemma countLevel_two (k1 k2 : Z) (l : list Z) :
  k1 <> k2 -> countLevel k1 l + countLevel k2 l <= Z.of_nat (length l).
Proof.
  intros Hne. induction l as [|x l IH]; [done|].
  rewrite !countLevel_cons. simpl length.
  destruct (decide (x = k1)), (decide (x = k2)); subst; try congruence; lia.
Qed.

Lemma countLevel_all (k : Z) (l : list Z) :
  Forall (eq k) l -> countLevel k l = Z.of_nat (length l).
Proof.
  induction 1 as [|x l <- _ IH]; [done|].
  rewrite countLevel_cons, decide_True by done. simpl length. lia.
Qed.

(* ===================================================================== *)
(** ** The scan, as one loop over the offsets of the rectangle *)

Lemma scanColumns_indices data maj rowBase columns buckets :
  scanColumns data maj rowBase columns buckets
  = scanIndices data maj ((fun column => rowBase + column) <$> columns) buckets.
Proof.
  revert buckets. induction columns as [|c cs IH]; intros buckets; [done|].
  simpl. destruct (scanPixel data maj buckets (rowBase + c)); [apply IH | done].
Qed.

Lemma scanIndices_app data maj xs ys buckets :
  scanIndices data maj (xs ++ ys) buckets
  = match scanIndices data maj xs buckets with
    | Scanning buckets' => scanIndices data maj ys buckets'
    | Returned o => Returned o
    end.
Proof.
  revert buckets. induction xs as [|x xs IH]; intros buckets; [done|].
  simpl. destruct (scanPixel data maj buckets x); [apply IH | done].
Qed.

Lemma scanRows_indices data stride maj rows columns buckets :
  scanRows data stride maj rows columns buckets
  = scanIndices data maj
      (row ← rows; (fun column => Int32.mul row stride + column) <$> columns)
      buckets.
Proof.
  revert buckets. induction rows as [|r rs IH]; intros buckets; [done|].
  simpl. rewrite scanIndices_app, scanColumns_indices.
  destruct (scanIndices _ _ _ _); [apply IH | done].
Qed.

Lemma sampleArea_unfold data stride area :
  sampleArea data stride area
  = match scanIndices data (majorityOf area) (areaIndices stride area)
                      emptyBuckets with
    | Returned o => o
    | Scanning buckets =>
        accumulate buckets (majorityOf area) (length buckets) 0 0
    end.
Proof. unfold sampleArea. by rewrite scanRows_indices. Qed.

Lemma length_areaIndices stride area :
  length (areaIndices stride area)
  = (length (rowsOf area) * length (columnsOf area))%nat.
Proof.
  unfold areaIndices. induction (rowsOf area) as [|r rs IH]; [done|].
  rewrite bind_cons, length_app, length_fmap, IH. done.
Qed.

(** A scan that reads no pixel leaves the buckets as they are. *)
Lemma scanRows_no_columns data stride maj rows buckets :
  scanRows data stride maj rows [] buckets = Scanning buckets.
Proof. induction rows as [|r rs IH]; [done | apply IH]. Qed.

(* ===================================================================== *)
(** ** The early exit *)

Lemma half_bounds (n : Z) : 2 * (n / 2) <= n < 2 * (n / 2) + 2.
Proof.
  pose proof (Z.div_mod n 2 ltac:(lia)).
  pose proof (Z.mod_pos_bound n 2 ltac:(lia)). lia.
Qed.

(** The invariant of the scan: every bucket holds the number of pixels of
    its level seen so far, and [level] has not reached the threshold. *)
Lemma scanIndices_majority data maj level :
  forall indices pixels seen buckets,
    Forall2 (fun index pixel => readPixel data index = Some pixel) indices pixels ->
    length buckets = bucketCount ->
    (forall k, 0 <= k < 256 -> bucketAt buckets k = countLevel k seen) ->
    countLevel level seen <= maj ->
    Z.of_nat (length (seen ++ (lumaLevel <$> pixels))) <= Int32.max_signed ->
    maj = Z.of_nat (length (seen ++ (lumaLevel <$> pixels))) / 2 ->
    Z.of_nat (length (seen ++ (lumaLevel <$> pixels)))
      < 2 * countLevel level (seen ++ (lumaLevel <$> pixels)) ->
    scanIndices data maj indices buckets = Returned (Majority level).
Proof.
  induction indices as [|index indices IH];
    intros pixels seen buckets Hread Hlen Hbuckets Hlevel Hfits Hmaj Hmore.
  - apply Forall2_nil_inv_l in Hread as ->.
    rewrite fmap_nil, app_nil_r in *.
    pose proof (half_bounds (Z.of_nat (length seen))). lia.
  - apply Forall2_cons_inv_l in Hread as (pixel & pixels' & Hpixel & Hrest & ->).
    rewrite fmap_cons in *.
    set (x := lumaLevel pixel) in *.
    pose proof (lumaLevel_range pixel) as Hx. fold x in Hx.
    assert (Hall : seen ++ x :: (lumaLevel <$> pixels')
                   = (seen ++ [x]) ++ (lumaLevel <$> pixels'))
      by (by rewrite <- app_assoc).
    assert (Hcount : bucketAt (increment buckets x) x = countLevel x seen + 1).
    { rewrite bucketAt_increment_eq by (rewrite Hlen; unfold bucketCount; lia).
      rewrite Hbuckets by lia. unfold Int32.add. apply wrap_small.
      pose proof (countLevel_nonneg x seen).
      pose proof (countLevel_le_length x seen).
      rewrite length_app in Hfits. simpl length in Hfits.
      unfold Int32.in_range, Int32.min_signed, Int32.max_signed in *. lia. }
    simpl. unfold scanPixel. rewrite Hpixel. fold x. rewrite Hcount.
    destruct (maj <? countLevel x seen + 1) eqn:Htest.
    + apply Z.ltb_lt in Htest.
      destruct (decide (x = level)) as [->|Hne]; [done|].
      exfalso.
      pose proof (countLevel_two x level
                    (seen ++ x :: (lumaLevel <$> pixels')) Hne) as Htwo.
      rewrite (countLevel_app x), countLevel_cons, decide_True in Htwo by done.
      pose proof (countLevel_nonneg x (lumaLevel <$> pixels')).
      set (n := Z.of_nat (length (seen ++ x :: (lumaLevel <$> pixels')))) in *.
      pose proof (half_bounds n). lia.
    + apply Z.ltb_ge in Htest.
      apply (IH pixels' (seen ++ [x])).
      * done.
      * by rewrite length_increment.
      * intros k Hk. rewrite countLevel_app, countLevel_cons, countLevel_nil.
        destruct (decide (x = k)) as [<-|Hne]; [rewrite Hcount; lia|].
        rewrite bucketAt_increment_ne by lia. rewrite Hbuckets by done. lia.
      * rewrite countLevel_app, countLevel_cons, countLevel_nil.
        destruct (decide (x = level)) as [<-|Hne]; lia.
      * by rewrite <- Hall.
      * by rewrite <- Hall.
      * by rewrite <- Hall.
Qed.

(** The threshold of a rectangle with at least one pixel whose area fits
    [int32_t] is half the number of its pixels. *)
Lemma majorityOf_pixels stride area :
  areaFits area ->
  areaIndices stride area <> [] ->
  majorityOf area = Z.of_nat (length (areaIndices stride area)) / 2
  /\ Z.of_nat (length (areaIndices stride area)) <= Int32.max_signed.
Proof.
  unfold areaFits. intros Harea Hne.
  assert (Hlen : length (areaIndices stride area) <> 0%nat)
    by (by destruct (areaIndices stride area)).
  rewrite length_areaIndices in *. unfold rowsOf, columnsOf in *.
  rewrite !length_seqZ in *.
  set (w := Rect.right area - Rect.left area) in *.
  set (h := Rect.bottom area - Rect.top area) in *.
  assert (0 < w /\ 0 < h) as [Hw Hh] by lia.
  unfold Int32.in_range, Int32.min_signed, Int32.max_signed in *.
  assert (w * h >= w) by nia.
  assert (w * h >= h) by nia.
  assert (Hsize : Z.of_nat (Z.to_nat h * Z.to_nat w) = w * h) by lia.
  rewrite Hsize. split; [|lia].
  unfold majorityOf, Rect.getWidth, Rect.getHeight, Int32.div, Int32.mul, Int32.sub.
  fold w h.
  rewrite (wrap_small w), (wrap_small h)
    by (unfold Int32.in_range, Int32.min_signed, Int32.max_signed; lia).
  rewrite (wrap_small (w * h))
    by (unfold Int32.in_range, Int32.min_signed, Int32.max_signed; lia).
  rewrite Z.quot_div_nonneg by lia.
  apply wrap_small.
  unfold Int32.in_range, Int32.min_signed, Int32.max_signed.
  pose proof (half_bounds (w * h)). lia.
Qed.

Lemma majority_level_returned data stride area pixels level :
  areaFits area ->
  areaPixels data stride area = Some pixels ->
  Z.of_nat (length pixels) < 2 * countLevel level (lumaLevel <$> pixels) ->
  sampleArea data stride area = Majority level.
Proof.
  intros Hfits Hpixels Hmore.
  unfold areaPixels in Hpixels.
  pose proof (length_mapM _ _ _ Hpixels) as Hlen.
  apply mapM_Some in Hpixels.
  assert (Hne : areaIndices stride area <> []).
  { intros Hnil. rewrite Hnil in Hlen. destruct pixels; [|done].
    rewrite fmap_nil, countLevel_nil in Hmore. simpl in Hmore. lia. }
  destruct (majorityOf_pixels stride area Hfits Hne) as [Hmaj Hmax].
  rewrite sampleArea_unfold.
  rewrite (scanIndices_majority data (majorityOf area) level
             (areaIndices stride area) pixels [] emptyBuckets); try done.
  - intros k _. by rewrite bucketAt_empty, countLevel_nil.
  - rewrite countLevel_nil, Hmaj. apply Z.div_pos; lia.
  - rewrite app_nil_l, length_fmap, <- Hlen. done.
  - rewrite app_nil_l, length_fmap, <- Hlen. done.
  - rewrite app_nil_l, length_fmap. done.
Qed.

(* ===================================================================== *)
(** ** Comparisons of [float] values *)

Lemma eqb_zero_inv (x : Float32.float) :
  Float32.eqb x Float32.zero = true -> exists s, x = S754_zero s.
Proof.
  unfold Float32.eqb, SFeqb, Float32.zero.
  destruct x as [s|s| |s m e]; simpl; [by exists s | by destruct s | done |].
  by destruct s.
Qed.

Lemma eqb_one_inv (x : Float32.float) :
  Float32.eqb x Float32.one = true -> x = Float32.one.
Proof.
  unfold Float32.eqb, SFeqb.
  change Float32.one with (S754_finite false 8388608 (-23)).
  destruct x as [s|s| |s m e]; cbv beta iota delta [SFcompare];
    [done | by destruct s | done |].
  destruct s; [done|].
  destruct (e ?= -23) eqn:He; try done. apply Z.compare_eq in He as ->.
  destruct (Pos.compare_cont Eq m 8388608) eqn:Hm; try done.
  by apply Pos.compare_eq in Hm as ->.
Qed.

Lemma lumaLevel_of_zero (pixel : Z) :
  Float32.eqb (pixelLuma pixel) Float32.zero = true -> lumaLevel pixel = 0.
Proof.
  intros [s Hs]%eqb_zero_inv. unfold lumaLevel. rewrite Hs. by destruct s.
Qed.

Lemma lumaLevel_of_one (pixel : Z) :
  Float32.eqb (pixelLuma pixel) Float32.one = true -> lumaLevel pixel = 255.
Proof.
  intros Hone%eqb_one_inv. unfold lumaLevel. rewrite Hone. by vm_compute.
Qed.

(** Every quotient [level / 255.0f] of a [uint8_t] level lies in [0, 1]. *)
Lemma level_in_unit_interval (level : Z) :
  0 <= level <= 255 ->
  in_unit_interval (Float32.div (Float32.of_Z level) f255) = true.
Proof.
  intros Hlevel.
  assert (Hall : forallb (fun l => in_unit_interval
                                     (Float32.div (Float32.of_Z l) f255))
                         (seqZ 0 256) = true) by (by vm_compute).
  rewrite forallb_forall in Hall. apply Hall.
  apply list_elem_of_In, elem_of_seqZ. lia.
Qed.

(* ===================================================================== *)
(** ** The cumulative loop *)

Lemma scanIndices_length data maj indices :
  forall buckets buckets',
    scanIndices data maj indices buckets = Scanning buckets' ->
    length buckets' = length buckets.
Proof.
  induction indices as [|index indices IH]; intros buckets buckets' Hscan.
  - by injection Hscan as <-.
  - simpl in Hscan. unfold scanPixel in Hscan.
    destruct (readPixel data index) as [pixel|]; [|done].
    destruct (maj <? _); [done|].
    rewrite (IH _ _ Hscan). apply length_increment.
Qed.

Lemma scanIndices_returned data maj indices :
  forall buckets o,
    scanIndices data maj indices buckets = Returned o ->
    (exists luma, o = Majority luma /\ 0 <= luma <= 255)
    \/ (exists index, o = PixelOutOfRange index).
Proof.
  induction indices as [|index indices IH]; intros buckets o Hscan; [done|].
  simpl in Hscan. unfold scanPixel in Hscan.
  destruct (readPixel data index) as [pixel|].
  - destruct (maj <? _).
    + injection Hscan as <-. left. exists (lumaLevel pixel).
      pose proof (lumaLevel_range pixel). split; [done | lia].
    + by apply IH in Hscan.
  - injection Hscan as <-. right. by exists index.
Qed.

(** The loop starts at entry [bucket + 1]: with [remaining] entries left
    up to the size of the array, it stops at some entry in between, or it
    reads the entry one past the end. *)
Lemma accumulate_outcome buckets maj :
  forall remaining bucket accumulated,
    0 <= bucket ->
    (0 < remaining)%nat ->
    bucket + Z.of_nat remaining = Z.of_nat (length buckets) ->
    (exists k, accumulate buckets maj remaining bucket accumulated = Cumulative k
               /\ bucket < k < Z.of_nat (length buckets))
    \/ accumulate buckets maj remaining bucket accumulated
       = BucketOutOfRange (Z.of_nat (length buckets)).
Proof.
  induction remaining as [|remaining IH]; intros bucket accumulated Hb Hpos Hsum;
    [lia|].
  simpl.
  destruct (buckets !! Z.to_nat (bucket + 1)) as [count|] eqn:Hget.
  - apply lookup_lt_Some in Hget.
    destruct (maj <? Int32.add accumulated count).
    + left. exists (bucket + 1). split; [done | lia].
    + destruct (IH (bucket + 1) (Int32.add accumulated count))
        as [(k & Hk & Hrange)|Hout]; [lia | lia | lia | |].
      * left. exists k. split; [done | lia].
      * by right.
  - apply lookup_ge_None in Hget. right. f_equal. lia.
Qed.

(** Entry 0 is never read: the loop skips the darkest level. *)
Lemma accumulate_ignores_first buckets maj count count' :
  forall remaining bucket accumulated,
    0 <= bucket ->
    accumulate (count :: buckets) maj remaining bucket accumulated
    = accumulate (count' :: buckets) maj remaining bucket accumulated.
Proof.
  induction remaining as [|remaining IH]; intros bucket accumulated Hb; [done|].
  simpl.
  replace (Z.to_nat (bucket + 1)) with (S (Z.to_nat bucket)) by lia. simpl.
  destruct (buckets !! Z.to_nat bucket) as [c|]; [|done].
  destruct (maj <? Int32.add accumulated c); [done|].
  apply IH. lia.
Qed.

(** Whenever [sampleArea] returns a value, the value lies in [0, 1]. *)
Lemma sampleArea_returned_in_unit_interval data stride area v :
  returned (sampleArea data stride area) = Some v -> in_unit_interval v = true.
Proof.
  rewrite sampleArea_unfold.
  destruct (scanIndices data (majorityOf area) (areaIndices stride area)
                        emptyBuckets) as [buckets|o] eqn:Hscan.
  - apply scanIndices_length in Hscan.
    assert (Hlen : length buckets = 256%nat) by (by rewrite Hscan).
    destruct (accumulate_outcome buckets (majorityOf area) (length buckets) 0 0)
      as [(k & -> & Hk)| ->]; [lia | lia | lia | |done].
    simpl. intros [= <-]. apply level_in_unit_interval. lia.
  - apply scanIndices_returned in Hscan as [(luma & -> & Hluma)|(index & ->)];
      [|done].
    simpl. intros [= <-]. by apply level_in_unit_interval.
Qed.

(* ===================================================================== *)
(** ** The sampler: the claims *)

(** C1.  The cumulative loop does not stay inside [brightnessBuckets]: on
    a rectangle of one black and one white pixel no bucket passes the
    threshold during the scan, and the loop, which starts at entry 1, goes
    on to read entry 256 of the 256-entry array.  Nor does it return the
    smallest level whose cumulative count passes the threshold: on three
    pixels of levels 0, 1 and 2 that level is 1, and the loop stops at 2. *)
Theorem cumulative_loop_overruns_buckets :
  sampleArea [black; white] 2 (Rect.make 0 0 2 1) = BucketOutOfRange 256
  /\ specCumulativeLevel (majorityOf (Rect.make 0 0 2 1))
                         (histogram (lumaLevel <$> [black; white]))
     = Some 255
  /\ sampleArea [grey 0; grey 1; grey 2] 3 (Rect.make 0 0 3 1) = Cumulative 2
  /\ specCumulativeLevel (majorityOf (Rect.make 0 0 3 1))
                         (histogram (lumaLevel <$> [grey 0; grey 1; grey 2]))
     = Some 1.
Proof. repeat split; by vm_compute. Qed.

(** C2.  On a rectangle of width zero, and on one of height zero, whatever
    the buffer and the stride, [sampleArea] reads no pixel, finds every
    bucket empty, and its cumulative loop reads entry 256 of
    [brightnessBuckets]: it does not return 0. *)
Theorem sampleArea_zero_area_overruns data stride left top right bottom :
  sampleArea data stride (Rect.make left top left bottom) = BucketOutOfRange 256
  /\ sampleArea data stride (Rect.make left top right top) = BucketOutOfRange 256.
Proof.
  assert (Hmaj : forall a, Int32.sub a a = 0)
    by (intros a; unfold Int32.sub; by rewrite Z.sub_diag).
  split; unfold sampleArea, majorityOf, rowsOf, columnsOf,
           Rect.getWidth, Rect.getHeight;
    cbn [Rect.left Rect.top Rect.right Rect.bottom]; rewrite Hmaj, Z.sub_diag.
  - change (seqZ left 0) with (@nil Z). rewrite scanRows_no_columns.
    unfold Int32.mul. rewrite Z.mul_0_l. by vm_compute.
  - change (seqZ top 0) with (@nil Z). cbn [scanRows].
    unfold Int32.mul. rewrite Z.mul_0_r. by vm_compute.
Qed.

(** C4.  On a column of one white and one black pixel [sampleArea] returns
    no value of [0, 1]: it reads past [brightnessBuckets], and the two
    values its loop can then still return, 256/255 and 257/255, are both
    above 1. *)
Theorem sampleArea_leaves_unit_interval :
  sampleArea [white; black] 1 (Rect.make 0 0 1 2) = BucketOutOfRange 256
  /\ returned (sampleArea [white; black] 1 (Rect.make 0 0 1 2)) = None
  /\ (in_unit_interval <$> returned (Cumulative 256)) = Some false
  /\ (in_unit_interval <$> returned (Cumulative 257)) = Some false.
Proof. repeat split; by vm_compute. Qed.

(** C5.  Take a rectangle whose pixels all lie inside the buffer and whose
    area is an [int32_t].  When more than half of its pixels have luma
    level [level], [sampleArea] returns [level / 255.0f] from inside the
    scan. *)
Theorem sampleArea_majority data stride area pixels level :
  areaFits area ->
  areaPixels data stride area = Some pixels ->
  Z.of_nat (length pixels) < 2 * countLevel level (lumaLevel <$> pixels) ->
  sampleArea data stride area = Majority level
  /\ returned (sampleArea data stride area)
     = Some (Float32.div (Float32.of_Z level) f255).
Proof.
  intros Hfits Hpixels Hmore.
  by rewrite (majority_level_returned data stride area pixels level).
Qed.

Lemma sampleArea_majority_witness :
  sampleArea [white; black; white; grey 7] 4 (Rect.make 0 0 3 1) = Majority 255
  /\ returned (sampleArea [white; black; white; grey 7] 4 (Rect.make 0 0 3 1))
     = Some (Float32.div (Float32.of_Z 255) f255).
Proof.
  apply (sampleArea_majority [white; black; white; grey 7] 4 (Rect.make 0 0 3 1)
           [white; black; white] 255).
  - unfold areaFits, Int32.max_signed; simpl; lia.
  - reflexivity.
  - vm_compute. reflexivity.
Defined.

(** C6, the claim at luma 0.5.  A rectangle filled with a pixel whose luma
    is exactly [0.5f] does not yield [0.5f]: it yields [128 / 255.0f]. *)
Lemma uniform_half_luma_yields_another_value :
  areaPixels (replicate 4 halfLumaPixel) 2 (Rect.make 0 0 2 2)
    = Some (replicate 4 halfLumaPixel)
  /\ Float32.eqb (pixelLuma halfLumaPixel) Float32.half = true
  /\ returned (sampleArea (replicate 4 halfLumaPixel) 2 (Rect.make 0 0 2 2))
     = Some (Float32.decimal 128 255)
  /\ Float32.eqb (Float32.decimal 128 255) Float32.half = false.
Proof. repeat split; by vm_compute. Qed.

(** C6, amended.  A rectangle with at least one pixel (all inside the
    buffer, the area an [int32_t]), all of whose pixels have the same
    value, yields the luma level of that value over 255, from inside the
    scan; this is the luma of the value itself when that luma is 0.0 or
    1.0. *)
Theorem sampleArea_uniform data stride area pixels pixel :
  areaFits area ->
  areaPixels data stride area = Some pixels ->
  pixels <> [] ->
  Forall (eq pixel) pixels ->
  sampleArea data stride area = Majority (lumaLevel pixel)
  /\ (Float32.eqb (pixelLuma pixel) Float32.zero = true ->
      returned (sampleArea data stride area) = Some Float32.zero)
  /\ (Float32.eqb (pixelLuma pixel) Float32.one = true ->
      returned (sampleArea data stride area) = Some Float32.one).
Proof.
  intros Hfits Hpixels Hne Hall.
  assert (Hsample : sampleArea data stride area = Majority (lumaLevel pixel)).
  { apply (majority_level_returned data stride area pixels); [done..|].
    rewrite countLevel_all by (by apply Forall_fmap, (Forall_impl _ _ _ Hall);
                               intros ? <-).
    rewrite length_fmap. destruct pixels; [done | simpl length; lia]. }
  rewrite Hsample. split; [done|]. split.
  - intros ->%lumaLevel_of_zero. reflexivity.
  - intros ->%lumaLevel_of_one. by vm_compute.
Qed.

Lemma sampleArea_uniform_witness :
  (sampleArea (replicate 6 white) 3 (Rect.make 1 0 3 2) = Majority (lumaLevel white)
   /\ returned (sampleArea (replicate 6 white) 3 (Rect.make 1 0 3 2))
      = Some Float32.one)
  /\ (sampleArea (replicate 6 black) 3 (Rect.make 1 0 3 2)
      = Majority (lumaLevel black)
      /\ returned (sampleArea (replicate 6 black) 3 (Rect.make 1 0 3 2))
         = Some Float32.zero).
Proof.
  split.
  - destruct (sampleArea_uniform (replicate 6 white) 3 (Rect.make 1 0 3 2)
                (replicate 4 white) white) as (Hlevel & _ & Hone).
    + unfold areaFits, Int32.max_signed; simpl; lia.
    + reflexivity.
    + discriminate.
    + repeat constructor.
    + split; [exact Hlevel|]. apply Hone. vm_compute. reflexivity.
  - destruct (sampleArea_uniform (replicate 6 black) 3 (Rect.make 1 0 3 2)
                (replicate 4 black) black) as (Hlevel & Hzero & _).
    + unfold areaFits, Int32.max_signed; simpl; lia.
    + reflexivity.
    + discriminate.
    + repeat constructor.
    + split; [exact Hlevel|]. apply Hzero. vm_compute. reflexivity.
Defined.

(* ===================================================================== *)
(** ** The mutex and the calls of other threads *)

Section EngineFacts.
Context `{Collaborators}.

Lemma lock_guard_free body w :
  mutexHeld w = false ->
  lock_guard body w
  = Some {| shared := body (shared w); mutexHeld := false; trace := trace w |}.
Proof. unfold lock_guard. by intros ->. Qed.

Lemma lock_guard_held body w : mutexHeld w = true -> lock_guard body w = None.
Proof. unfold lock_guard. by intros ->. Qed.

(** A call that goes through leaves the mutex free and only adds to the
    trace. *)
Lemma runCall_free c w :
  mutexHeld w = false ->
  exists w', runCall c w = Some w' /\ mutexHeld w' = false
             /\ exists events, trace w' = trace w ++ events.
Proof.
  intros Hfree. destruct c; simpl;
    unfold addListener, removeListener, sampleNow, binderDied.
  - rewrite lock_guard_free by done. eexists. split; [done|]. split; [done|].
    simpl. by eexists.
  - rewrite lock_guard_free by done. eexists. split; [done|]. split; [done|].
    exists []. simpl. by rewrite app_nil_r.
  - rewrite lock_guard_free by done. eexists. split; [done|]. split; [done|].
    exists []. simpl. by rewrite app_nil_r.
  - rewrite lock_guard_free by done. eexists. split; [done|]. split; [done|].
    exists []. simpl. by rewrite app_nil_r.
Qed.

Lemma runCalls_free cs :
  forall w,
    mutexHeld w = false ->
    exists w', runCalls cs w = Some w' /\ mutexHeld w' = false
               /\ exists events, trace w' = trace w ++ events.
Proof.
  induction cs as [|c cs IH]; intros w Hfree.
  - exists w. split; [done|]. split; [done|]. exists []. by rewrite app_nil_r.
  - destruct (runCall_free c w Hfree) as (w1 & Hrun & Hfree1 & ev1 & Htrace1).
    destruct (IH w1 Hfree1) as (w2 & Hruns & Hfree2 & ev2 & Htrace2).
    exists w2. simpl. rewrite Hrun. simpl. split; [done|]. split; [done|].
    exists (ev1 ++ ev2). by rewrite Htrace2, Htrace1, app_assoc.
Qed.

(** While the sampling thread holds the mutex, a call from another thread
    does not return. *)
Lemma runCall_held c w : mutexHeld w = true -> runCall c w = None.
Proof.
  intros Hheld. destruct c; simpl;
    unfold addListener, removeListener, sampleNow, binderDied;
    by rewrite lock_guard_held.
Qed.

(* =================================================================== *)
(** ** The delivery loop *)

Lemma deliver_from (active : list Descriptor) (lumas : list outcome) :
  length lumas = length active ->
  forall n start w,
    (start + n)%nat = length active ->
    foldl (fun w d =>
             match active !! d, lumas !! d with
             | Some descriptor, Some luma =>
                 emit (OnSampleCollected (listener descriptor) luma) w
             | _, _ => w
             end) w (seq start n)
    = {| shared := shared w; mutexHeld := mutexHeld w;
         trace := trace w
                  ++ zip_with (fun d v => OnSampleCollected (listener d) v)
                              (drop start active) (drop start lumas) |}.
Proof.
  intros Hlen. induction n as [|n IH]; intros start w Hsum.
  - rewrite !drop_ge by lia. simpl. rewrite app_nil_r. by destruct w.
  - destruct (lookup_lt_is_Some_2 active start) as [descriptor Hd]; [lia|].
    destruct (lookup_lt_is_Some_2 lumas start) as [luma Hl]; [lia|].
    simpl. rewrite Hd, Hl, IH by lia.
    rewrite (drop_S active descriptor start Hd), (drop_S lumas luma start Hl).
    simpl. by rewrite <- app_assoc.
Qed.

Lemma deliver_trace (active : list Descriptor) (lumas : list outcome) w :
  length lumas = length active ->
  deliver active lumas w
  = {| shared := shared w; mutexHeld := mutexHeld w;
       trace := trace w
                ++ zip_with (fun d v => OnSampleCollected (listener d) v)
                            active lumas |}.
Proof. intros Hlen. unfold deliver. by rewrite (deliver_from active lumas Hlen). Qed.

Lemma callbacks_app (xs ys : list Event) :
  callbacks (xs ++ ys) = callbacks xs ++ callbacks ys.
Proof. unfold callbacks. apply omap_app. Qed.

Lemma callbacks_deliveries (active : list Descriptor) (lumas : list outcome) :
  callbacks (zip_with (fun d v => OnSampleCollected (listener d) v) active lumas)
  = zip (listener <$> active) lumas.
Proof.
  revert lumas. induction active as [|d active IH]; intros [|v lumas]; try done.
  simpl. f_equal. apply IH.
Qed.

Lemma callbacks_calls cs :
  forall w w',
    runCalls cs w = Some w' -> callbacks (trace w') = callbacks (trace w).
Proof.
  induction cs as [|c cs IH]; intros w w' Hrun.
  - by injection Hrun as <-.
  - simpl in Hrun. destruct (runCall c w) as [w1|] eqn:Hcall; [|done].
    simpl in Hrun. rewrite (IH _ _ Hrun).
    destruct c; simpl in Hcall;
      unfold addListener, removeListener, sampleNow, binderDied, lock_guard
        in Hcall;
      simpl in Hcall; destruct (mutexHeld w); try done;
      injection Hcall as <-; simpl; [|done..].
    rewrite callbacks_app. simpl. by rewrite app_nil_r.
Qed.
End EngineFacts.

Section PassFacts.
Context `{Collaborators}.

(* =================================================================== *)
(** ** One pass, step by step *)

Lemma captureSample_empty env w :
  mDescriptors (shared w) = ∅ -> captureSample env w = Some w.
Proof. intros Hempty. unfold captureSample. by rewrite bool_decide_eq_true_2. Qed.

Lemma passActive_empty env s : mDescriptors s = ∅ -> passActive env s = [].
Proof.
  intros Hempty. unfold passActive, snapshot. rewrite Hempty, map_to_list_empty.
  done.
Qed.

Lemma captureSample_run env w :
  mutexHeld w = true ->
  mDescriptors (shared w) <> ∅ ->
  exists w1 during,
    runCalls (reentrant env)
      {| shared := shared w; mutexHeld := false;
         trace := trace w
                  ++ [MutexUnlock;
                      CaptureScreenCore
                        (rendered
                           (traverseLayers (snapshot (shared w))
                              (regionBounds (area <$> snapshot (shared w)))
                              ∅ (layers env)))] |}
    = Some w1
    /\ mutexHeld w1 = false
    /\ trace w1
       = trace w
         ++ [MutexUnlock;
             CaptureScreenCore
               (rendered
                  (traverseLayers (snapshot (shared w))
                     (regionBounds (area <$> snapshot (shared w)))
                     ∅ (layers env)))]
         ++ during
    /\ callbacks during = []
    /\ captureSample env w
       = Some {| shared := shared w1; mutexHeld := true;
                 trace := trace w1
                          ++ MutexLock
                             :: (if decide (length (passLumas env (shared w))
                                            = length (passActive env (shared w)))
                                 then zip_with
                                        (fun d v => OnSampleCollected (listener d) v)
                                        (passActive env (shared w))
                                        (passLumas env (shared w))
                                 else []) |}.
Proof.
  intros Hheld Hne.
  set (descriptors := snapshot (shared w)).
  set (sampledArea := regionBounds (area <$> descriptors)).
  set (t := traverseLayers descriptors sampledArea ∅ (layers env)).
  set (w0 := {| shared := shared w; mutexHeld := false;
                trace := trace w ++ [MutexUnlock; CaptureScreenCore (rendered t)] |}).
  destruct (runCalls_free (reentrant env) w0 eq_refl)
    as (w1 & Hrun & Hfree & during & Htrace).
  exists w1, during. split; [done|]. split; [done|].
  split; [rewrite Htrace; unfold w0; simpl; by rewrite <- app_assoc|].
  split.
  { pose proof (callbacks_calls _ _ _ Hrun) as Hcb.
    rewrite Htrace, callbacks_app in Hcb.
    apply (f_equal length) in Hcb. rewrite length_app in Hcb.
    destruct (callbacks during); [done | simpl in Hcb; lia]. }
  unfold captureSample. rewrite bool_decide_eq_false_2 by done.
  unfold mutexUnlock. rewrite Hheld. simpl.
  unfold captureScreenCore. fold descriptors sampledArea t.
  unfold emit. simpl. rewrite <- app_assoc. simpl. fold w0. rewrite Hrun. simpl.
  unfold mutexLock. rewrite Hfree. simpl.
  fold (passActive env (shared w)).
  change (sampleBuffer (captured env) (Rect.leftTop sampledArea)
            (passActive env (shared w)))
    with (passLumas env (shared w)).
  destruct (decide (length (passLumas env (shared w))
                    = length (passActive env (shared w)))) as [Heq|Hneq].
  - rewrite bool_decide_eq_false_2 by (by intros ?).
    rewrite deliver_trace by done. simpl. by rewrite <- app_assoc.
  - by rewrite bool_decide_eq_true_2.
Qed.

(* =================================================================== *)
(** ** The registry *)

Lemma elem_of_snapshot s d :
  d ∈ snapshot s <-> exists key, mDescriptors s !! key = Some d.
Proof.
  unfold snapshot. rewrite list_elem_of_fmap. split.
  - intros ([key d'] & -> & Hin). exists key. by apply elem_of_map_to_list.
  - intros (key & Hkey). exists (key, d). split; [done|].
    by apply elem_of_map_to_list.
Qed.

Lemma snapshot_listeners_NoDup s :
  registry_wf s -> NoDup (listener <$> snapshot s).
Proof.
  intros Hwf. apply (NoDup_fmap_1 asBinder). unfold snapshot.
  rewrite <- !list_fmap_compose.
  assert (Hkeys : (asBinder ∘ listener ∘ snd) <$> map_to_list (mDescriptors s)
                  = fst <$> map_to_list (mDescriptors s)).
  { apply list_fmap_ext. intros i [key d] Hin. simpl.
    apply list_elem_of_lookup_2, elem_of_map_to_list in Hin.
    by apply Hwf in Hin. }
  rewrite Hkeys. apply NoDup_fst_map_to_list.
Qed.

Lemma same_listener_same_descriptor s d d' :
  registry_wf s ->
  d ∈ snapshot s -> d' ∈ snapshot s -> listener d' = listener d -> d' = d.
Proof.
  intros Hwf [key Hd]%elem_of_snapshot [key' Hd']%elem_of_snapshot Hsame.
  pose proof (Hwf _ _ Hd) as Hk. pose proof (Hwf _ _ Hd') as Hk'.
  simpl in Hk, Hk'. rewrite Hsame in Hk'. congruence.
Qed.

Lemma activeOf_NoDup listeners0 descriptors :
  NoDup (listener <$> descriptors) ->
  NoDup (listener <$> activeOf listeners0 descriptors).
Proof.
  intros Hnd. eapply sublist_NoDup; [exact Hnd|].
  apply fmap_sublist. unfold activeOf. apply sublist_filter.
Qed.

(* =================================================================== *)
(** ** The layer filter *)

Lemma markIntersecting_listeners rect descriptors :
  forall start l,
    l ∈ (markIntersecting rect descriptors start).2 ->
    l ∈ start.2
    \/ exists d, d ∈ descriptors /\ intersect rect (area d) = true
                 /\ listener d = l.
Proof.
  unfold markIntersecting.
  induction descriptors as [|d descriptors IH]; intros start l Hin;
    [by left|].
  simpl in Hin. apply IH in Hin as [Hin|(d' & Hd' & Hhit & Hl)].
  - destruct (intersect rect (area d)) eqn:Hhit; [|by left].
    simpl in Hin. apply elem_of_union in Hin as [->%elem_of_singleton|Hin];
      [|by left].
    right. exists d. split; [left|done].
  - right. exists d'. split; [by right|done].
Qed.

Lemma filterVisitor_stopped descriptors sampledArea t layer :
  stopLayerFound t = true -> filterVisitor descriptors sampledArea t layer = t.
Proof. unfold filterVisitor. by intros ->. Qed.

Lemma traverse_stopped descriptors sampledArea ls :
  forall t,
    stopLayerFound t = true ->
    foldl (filterVisitor descriptors sampledArea) t ls = t.
Proof.
  induction ls as [|layer ls IH]; intros t Hstop; [done|].
  simpl. rewrite filterVisitor_stopped by done. by apply IH.
Qed.

Lemma filterVisitor_at_stop descriptors sampledArea t layer :
  isStopLayer descriptors layer = true ->
  filterVisitor descriptors sampledArea t layer
  = {| stopLayerFound := true; listeners := listeners t;
       rendered := rendered t |}.
Proof.
  intros Hstop. unfold filterVisitor. rewrite Hstop.
  destruct t as [[] ? ?]; done.
Qed.

Lemma traverseLayers_stop descriptors sampledArea listeners0 before stop after :
  isStopLayer descriptors stop = true ->
  traverseLayers descriptors sampledArea listeners0 (before ++ stop :: after)
  = {| stopLayerFound := true;
       listeners := listeners (traverseLayers descriptors sampledArea
                                              listeners0 before);
       rendered := rendered (traverseLayers descriptors sampledArea
                                            listeners0 before) |}.
Proof.
  intros Hstop. unfold traverseLayers. rewrite foldl_app. simpl.
  rewrite filterVisitor_at_stop by done. by apply traverse_stopped.
Qed.

Lemma filterVisitor_rendered descriptors sampledArea t layer :
  exists r, rendered (filterVisitor descriptors sampledArea t layer)
            = rendered t ++ r
            /\ r `sublist_of` [layerId layer].
Proof.
  unfold filterVisitor.
  destruct (stopLayerFound t);
    [exists []; rewrite app_nil_r; split; [done | apply sublist_nil_l]|].
  destruct (isStopLayer descriptors layer);
    [exists []; rewrite app_nil_r; split; [done | apply sublist_nil_l]|].
  destruct (negb (intersect (transformed layer) sampledArea));
    [exists []; rewrite app_nil_r; split; [done | apply sublist_nil_l]|].
  destruct (markIntersecting _ _ _) as [[] listeners']; simpl.
  - by exists [layerId layer].
  - exists []. rewrite app_nil_r. split; [done | apply sublist_nil_l].
Qed.

Lemma traverse_rendered descriptors sampledArea ls :
  forall t,
    exists r, rendered (foldl (filterVisitor descriptors sampledArea) t ls)
              = rendered t ++ r
              /\ r `sublist_of` (layerId <$> ls).
Proof.
  induction ls as [|layer ls IH]; intros t.
  - exists []. by rewrite app_nil_r.
  - simpl.
    destruct (filterVisitor_rendered descriptors sampledArea t layer)
      as (r1 & Hr1 & Hsub1).
    destruct (IH (filterVisitor descriptors sampledArea t layer))
      as (r2 & Hr2 & Hsub2).
    exists (r1 ++ r2). rewrite Hr2, Hr1, <- app_assoc. split; [done|].
    by apply (sublist_app r1 [layerId layer] r2 (layerId <$> ls)).
Qed.

Lemma filterVisitor_listeners descriptors sampledArea t layer l :
  l ∈ listeners (filterVisitor descriptors sampledArea t layer) ->
  l ∈ listeners t
  \/ exists d, d ∈ descriptors
               /\ intersect (transformed layer) (area d) = true
               /\ listener d = l.
Proof.
  unfold filterVisitor.
  destruct (stopLayerFound t); [by left|].
  destruct (isStopLayer descriptors layer); [by left|].
  destruct (negb (intersect (transformed layer) sampledArea)); [by left|].
  destruct (markIntersecting _ _ _) as [any listeners'] eqn:Hmark.
  intros Hin.
  assert (Hin' : l ∈ (markIntersecting (transformed layer) descriptors
                        (false, listeners t)).2)
    by (rewrite Hmark; by destruct any).
  by apply markIntersecting_listeners in Hin'.
Qed.

Lemma traverse_listeners descriptors sampledArea ls l :
  forall t,
    l ∈ listeners (foldl (filterVisitor descriptors sampledArea) t ls) ->
    l ∈ listeners t
    \/ exists layer d, layer ∈ ls /\ d ∈ descriptors
                       /\ intersect (transformed layer) (area d) = true
                       /\ listener d = l.
Proof.
  induction ls as [|layer ls IH]; intros t Hin; [by left|].
  simpl in Hin. apply IH in Hin as [Hin|(layer' & d & Hl & Hd & Hhit & Hsame)].
  - apply filterVisitor_listeners in Hin as [Hin|(d & Hd & Hhit & Hsame)];
      [by left|].
    right. exists layer, d. split; [left|done].
  - right. exists layer', d. split; [by right|done].
Qed.

Lemma isStopLayer_owner descriptors d layer :
  d ∈ descriptors -> stopLayer d = Some (layerId layer) ->
  isStopLayer descriptors layer = true.
Proof.
  intros Hd Hstop. unfold isStopLayer. apply existsb_exists.
  exists d. split; [by apply list_elem_of_In | by apply bool_decide_eq_true_2].
Qed.
End PassFacts.

(* ===================================================================== *)
(** ** One pass, step by step, with the other threads in the window *)

Section StepFacts.
Context `{Collaborators}.

(** The shared state the calls of other threads leave does not depend on
    the trace they started from. *)
Lemma runCalls_shared cs :
  forall w1 w2 w1',
    mutexHeld w2 = false ->
    shared w1 = shared w2 ->
    runCalls cs w1 = Some w1' ->
    exists w2', runCalls cs w2 = Some w2' /\ shared w1' = shared w2'.
Proof.
  induction cs as [|c cs IH]; intros w1 w2 w1' Hfree Hshared Hrun.
  - injection Hrun as <-. by exists w2.
  - simpl in Hrun. destruct (runCall c w1) as [v1|] eqn:Hcall; [|done].
    simpl in Hrun.
    destruct (runCall_free c w2 Hfree) as (v2 & Hcall2 & Hfree2 & _).
    assert (Hv : shared v1 = shared v2).
    { destruct c; simpl in Hcall, Hcall2;
        unfold addListener, removeListener, sampleNow, binderDied, lock_guard
          in Hcall, Hcall2;
        simpl in Hcall, Hcall2; rewrite Hfree in Hcall2;
        destruct (mutexHeld w1); try done;
        injection Hcall as <-; injection Hcall2 as <-; simpl;
        by rewrite Hshared. }
    destruct (IH v1 v2 w1' Hfree2 Hv Hrun) as (w2' & Hrun2 & Hsame).
    exists w2'. simpl. rewrite Hcall2. simpl. done.
Qed.

Lemma runCalls_app cs1 cs2 w :
  runCalls (cs1 ++ cs2) w = (w' ← runCalls cs1 w; runCalls cs2 w').
Proof.
  revert w. induction cs1 as [|c cs1 IH]; intros w; [done|].
  simpl. destruct (runCall c w) as [w1|]; [|done]. simpl. apply IH.
Qed.

Lemma deliverSteps_from (active : list Descriptor) (lumas : list outcome) :
  length lumas = length active ->
  forall n start r,
    (start + n)%nat = length active ->
    forEach (seq start n)
      (fun d =>
         match active !! d, lumas !! d with
         | Some descriptor, Some luma =>
             does (OnSampleCollected (listener descriptor) luma)
         | _, _ => mret tt
         end) r
    = Some (tt,
            {| world :=
                 {| shared := shared (world r); mutexHeld := mutexHeld (world r);
                    trace := trace (world r)
                             ++ zip_with
                                  (fun d v => OnSampleCollected (listener d) v)
                                  (drop start active) (drop start lumas) |};
               steps := steps r
                        ++ (Does <$> zip_with
                                       (fun d v => OnSampleCollected (listener d) v)
                                       (drop start active) (drop start lumas)) |}).
Proof.
  intros Hlen. induction n as [|n IH]; intros start r Hsum.
  - rewrite !drop_ge by lia. simpl. rewrite !app_nil_r.
    by destruct r as [[] ?].
  - destruct (lookup_lt_is_Some_2 active start) as [descriptor Hd]; [lia|].
    destruct (lookup_lt_is_Some_2 lumas start) as [luma Hl]; [lia|].
    cbn [seq forEach]. unfold mbind at 1, Worker_bind at 1.
    rewrite Hd, Hl. unfold does, onWorld. cbn [world steps].
    rewrite IH by lia. cbn [world steps emit shared mutexHeld trace].
    rewrite (drop_S active descriptor start Hd), (drop_S lumas luma start Hl).
    simpl. by rewrite <- !app_assoc.
Qed.

(** The pass, started with the mutex held on a registry that is not
    empty. *)
Lemma captureSampleSteps_run env w log :
  mutexHeld w = true ->
  mDescriptors (shared w) <> ∅ ->
  exists wa wb,
    runCalls (early env)
      {| shared := shared w; mutexHeld := false;
         trace := trace w ++ [MutexUnlock] |}
    = Some wa
    /\ mutexHeld wa = false
    /\ runCalls (reentrant (capture env))
         (emit (passCall (capture env) (shared w)) wa)
       = Some wb
    /\ mutexHeld wb = false
    /\ captureSampleSteps env {| world := w; steps := log |}
       = Some (tt,
               {| world :=
                    {| shared := shared wb; mutexHeld := true;
                       trace := trace wb
                                ++ MutexLock
                                   :: passDeliveries (capture env) (shared w) |};
                  steps :=
                    log
                    ++ [Reads MDescriptors; Reads MDescriptors; Does MutexUnlock]
                    ++ (Elsewhere <$> early env)
                    ++ [Does (passCall (capture env) (shared w))]
                    ++ (Elsewhere <$> reentrant (capture env))
                    ++ Does MutexLock
                       :: (Does <$> passDeliveries (capture env) (shared w)) |}).
Proof.
  intros Hheld Hne.
  destruct (runCalls_free (early env)
              {| shared := shared w; mutexHeld := false;
                 trace := trace w ++ [MutexUnlock] |} eq_refl)
    as (wa & Ha & Hfa & _).
  assert (Hfa' : mutexHeld (emit (passCall (capture env) (shared w)) wa) = false)
    by done.
  destruct (runCalls_free (reentrant (capture env)) _ Hfa')
    as (wb & Hb & Hfb & _).
  exists wa, wb. split; [done|]. split; [done|]. split; [done|]. split; [done|].
  unfold captureSampleSteps.
  unfold mbind at 1, Worker_bind at 1. unfold reads at 1. cbn [world steps].
  rewrite bool_decide_eq_false_2 by done.
  unfold mbind at 1, Worker_bind at 1. unfold reads at 1. cbn [world steps].
  unfold mbind at 1, Worker_bind at 1. unfold unlock, onWorld at 1.
  cbn [world steps]. unfold mutexUnlock. rewrite Hheld.
  unfold mbind at 1, Worker_bind at 1. unfold elsewhere at 1, onWorld at 1.
  cbn [world steps]. rewrite Ha.
  unfold mbind at 1, Worker_bind at 1. unfold does at 1, onWorld at 1.
  cbn [world steps].
  unfold mbind at 1, Worker_bind at 1. unfold elsewhere at 1, onWorld at 1.
  cbn [world steps]. fold (passCall (capture env) (shared w)). rewrite Hb.
  unfold mbind at 1, Worker_bind at 1. unfold lock, onWorld at 1.
  cbn [world steps]. unfold mutexLock. rewrite Hfb.
  fold (passActive (capture env) (shared w)).
  change (sampleBuffer (captured (capture env))
            (Rect.leftTop (regionBounds (area <$> snapshot (shared w))))
            (passActive (capture env) (shared w)))
    with (passLumas (capture env) (shared w)).
  unfold passDeliveries.
  destruct (decide (length (passLumas (capture env) (shared w))
                    = length (passActive (capture env) (shared w))))
    as [Heq|Hneq].
  - rewrite bool_decide_eq_false_2 by (by intros ?).
    unfold deliverSteps. rewrite (deliverSteps_from _ _ Heq) by done.
    cbn [world steps shared mutexHeld trace drop]. do 3 f_equal.
    + by rewrite <- !app_assoc.
    + by rewrite <- !app_assoc.
  - rewrite bool_decide_eq_true_2 by done. unfold mret, Worker_ret.
    do 3 f_equal. by rewrite <- !app_assoc.
Qed.

(** The window of a log, across the calls of other threads. *)
Lemma untilLock_elsewhere cs rest :
  untilLock ((Elsewhere <$> cs) ++ rest) = (Elsewhere <$> cs) ++ untilLock rest.
Proof. induction cs as [|c cs IH]; [done|]. csimpl. by rewrite IH. Qed.

Lemma ownSteps_app (xs ys : list Step) :
  ownSteps (xs ++ ys) = ownSteps xs ++ ownSteps ys.
Proof. unfold ownSteps. apply filter_app. Qed.

Lemma ownSteps_elsewhere cs : ownSteps (Elsewhere <$> cs) = [].
Proof.
  induction cs as [|c cs IH]; [done|]. csimpl. unfold ownSteps in *.
  rewrite filter_cons_False by done. apply IH.
Qed.

Lemma ownSteps_does (events : list Event) :
  ownSteps (Does <$> events) = Does <$> events.
Proof.
  induction events as [|e events IH]; [done|]. csimpl. unfold ownSteps in *.
  rewrite filter_cons_True by done. by rewrite IH.
Qed.

(** The own steps of a pass, and the steps of its window. *)
Lemma ownSteps_pass cs1 cs2 (call : Event) (deliveries : list Event) :
  ownSteps ([Reads MDescriptors; Reads MDescriptors; Does MutexUnlock]
            ++ (Elsewhere <$> cs1) ++ [Does call] ++ (Elsewhere <$> cs2)
            ++ [Does MutexLock] ++ (Does <$> deliveries))
  = [Reads MDescriptors; Reads MDescriptors; Does MutexUnlock; Does call;
     Does MutexLock] ++ (Does <$> deliveries).
Proof. by rewrite !ownSteps_app, !ownSteps_elsewhere, ownSteps_does. Qed.

Lemma ownSteps_window cs1 cs2 (call : Event) :
  ownSteps ((Elsewhere <$> cs1) ++ [Does call] ++ (Elsewhere <$> cs2))
  = [Does call].
Proof. by rewrite !ownSteps_app, !ownSteps_elsewhere. Qed.

Lemma unlocked_pass cs1 cs2 rendered0 (deliveries : list Step) :
  unlocked ([Reads MDescriptors; Reads MDescriptors; Does MutexUnlock]
            ++ (Elsewhere <$> cs1) ++ [Does (CaptureScreenCore rendered0)]
            ++ (Elsewhere <$> cs2) ++ Does MutexLock :: deliveries)
  = (Elsewhere <$> cs1) ++ [Does (CaptureScreenCore rendered0)]
    ++ (Elsewhere <$> cs2).
Proof.
  cbn [app unlocked]. rewrite untilLock_elsewhere. f_equal.
  cbn [untilLock]. f_equal. rewrite untilLock_elsewhere.
  cbn [untilLock]. by rewrite app_nil_r.
Qed.

Lemma passCall_layers env env' s :
  layers env' = layers env -> passCall env' s = passCall env s.
Proof. intros Hlayers. unfold passCall. by rewrite Hlayers. Qed.

Lemma passDeliveries_capture env env' s :
  layers env' = layers env ->
  captured env' = captured env ->
  passDeliveries env' s = passDeliveries env s.
Proof.
  intros Hlayers Hcaptured.
  unfold passDeliveries, passLumas, passActive. by rewrite Hlayers, Hcaptured.
Qed.
End StepFacts.

(* ===================================================================== *)
(** ** The registry and the pass: the claims *)

Section EngineClaims.
Context `{Collaborators}.

(** C3, amended.  Calling [addListener] for a listener whose binder is
    already a key of the registry leaves the registry as it is: the key
    still maps to the descriptor registered first. *)
Theorem addListener_keeps_first_descriptor
    samplingArea stopLayerHandle l w d :
  mutexHeld w = false ->
  mDescriptors (shared w) !! asBinder l = Some d ->
  exists w',
    addListener samplingArea stopLayerHandle l w = Some w'
    /\ shared w' = shared w
    /\ mDescriptors (shared w') !! asBinder l = Some d.
Proof.
  intros Hfree Hpresent. unfold addListener.
  rewrite lock_guard_free by done. eexists. split; [done|].
  unfold setDescriptors, emplace. simpl. rewrite Hpresent.
  split; [by destruct (shared w) | done].
Qed.

(** The callbacks of a pass are among the pairs of an active listener and
    the luma at its position. *)
Lemma captureSample_delivers_pass env w :
  mutexHeld w = true ->
  exists w' events,
    captureSample env w = Some w'
    /\ trace w' = trace w ++ events
    /\ forall c, c ∈ callbacks events ->
                 c ∈ zip (listener <$> passActive env (shared w))
                         (passLumas env (shared w)).
Proof.
  intros Hheld.
  destruct (decide (mDescriptors (shared w) = ∅)) as [Hempty|Hne].
  - exists w, []. rewrite captureSample_empty, app_nil_r by done.
    split; [done|]. split; [done|]. intros c Hc.
    by apply elem_of_nil in Hc.
  - destruct (captureSample_run env w Hheld Hne)
      as (w1 & during & _ & _ & Htrace & Hquiet & ->).
    eexists. eexists. split; [done|]. simpl. rewrite Htrace.
    split; [rewrite <- app_assoc; reflexivity|].
    assert (Hpre : forall r, callbacks [MutexUnlock; CaptureScreenCore r] = [])
      by done.
    assert (Hpost : forall after,
               callbacks (MutexLock :: after) = callbacks after) by done.
    rewrite !callbacks_app, Hpre, Hquiet, Hpost. simpl app.
    intros c. destruct (decide _); [by rewrite callbacks_deliveries|].
    intros Hc. by apply elem_of_nil in Hc.
Qed.

(** C7.  A pass that starts with the mutex held runs to its end.  Its
    active descriptors have pairwise different listeners.  When there are
    as many luma values as active descriptors, the callbacks of the pass
    are one per active descriptor, in order, each with the luma at the
    same position; otherwise the pass makes no callback, and this is the
    case when the buffer cannot be locked while some descriptor is
    active.  The pass hands nothing else back. *)
Theorem captureSample_delivers_all_or_nothing env w :
  mutexHeld w = true ->
  registry_wf (shared w) ->
  exists w' events,
    captureSample env w = Some w'
    /\ trace w' = trace w ++ events
    /\ NoDup (listener <$> passActive env (shared w))
    /\ (length (passLumas env (shared w)) = length (passActive env (shared w)) ->
        callbacks events
        = zip (listener <$> passActive env (shared w)) (passLumas env (shared w)))
    /\ (length (passLumas env (shared w)) <> length (passActive env (shared w)) ->
        callbacks events = [])
    /\ (lockedData (captured env) = None ->
        passLumas env (shared w) = []
        /\ (passActive env (shared w) <> [] -> callbacks events = [])).
Proof.
  intros Hheld Hwf.
  assert (Hnodup : NoDup (listener <$> passActive env (shared w)))
    by (by apply activeOf_NoDup, snapshot_listeners_NoDup).
  assert (Hlock : lockedData (captured env) = None ->
                  passLumas env (shared w) = [])
    by (intros Hnone; unfold passLumas, sampleBuffer; by rewrite Hnone).
  destruct (decide (mDescriptors (shared w) = ∅)) as [Hempty|Hne].
  - exists w, []. rewrite captureSample_empty, app_nil_r by done.
    rewrite passActive_empty in * by done.
    repeat split; try done. by apply Hlock.
  - destruct (captureSample_run env w Hheld Hne)
      as (w1 & during & _ & _ & Htrace & Hquiet & ->).
    eexists. eexists. split; [done|]. simpl. rewrite Htrace.
    split; [rewrite <- app_assoc; reflexivity|].
    split; [done|].
    assert (Hpre : forall r, callbacks [MutexUnlock; CaptureScreenCore r] = [])
      by done.
    assert (Hpost : forall after,
               callbacks (MutexLock :: after) = callbacks after) by done.
    rewrite !callbacks_app, Hpre, Hquiet, Hpost. simpl app.
    destruct (decide (length (passLumas env (shared w))
                      = length (passActive env (shared w)))) as [Heq|Hneq].
    + split; [intros _; apply callbacks_deliveries|].
      split; [done|]. intros Hnone. split; [by apply Hlock|].
      intros Hactive. rewrite (Hlock Hnone) in Heq.
      by destruct (passActive env (shared w)).
    + split; [done|]. split; [done|]. intros Hnone. by split; [apply Hlock|].
Qed.

(** C8.  Let the traversal of a pass reach [stop], the stop layer of some
    registered descriptor [owner], after the layers [before].  Then the
    layers handed on to the renderer and the listeners marked are those
    of the traversal of [before] alone: [stop] and every layer after it
    are dropped, whichever descriptor [stop] belongs to.  If moreover no
    layer of [before] intersects the area of a registered descriptor [d]
    ([owner] itself, or another one), then [d] is not active in the pass
    and the pass makes no callback to its listener. *)
Theorem stop_layer_suppresses_later_layers
    env w key owner key' d before stop after :
  mutexHeld w = true ->
  registry_wf (shared w) ->
  mDescriptors (shared w) !! key = Some owner ->
  stopLayer owner = Some (layerId stop) ->
  layers env = before ++ stop :: after ->
  mDescriptors (shared w) !! key' = Some d ->
  (rendered (traverseLayers (snapshot (shared w))
               (regionBounds (area <$> snapshot (shared w))) ∅ (layers env))
   = rendered (traverseLayers (snapshot (shared w))
                 (regionBounds (area <$> snapshot (shared w))) ∅ before)
   /\ (rendered (traverseLayers (snapshot (shared w))
                   (regionBounds (area <$> snapshot (shared w))) ∅ (layers env))
       `sublist_of` (layerId <$> before))
   /\ listeners (traverseLayers (snapshot (shared w))
                   (regionBounds (area <$> snapshot (shared w))) ∅ (layers env))
      = listeners (traverseLayers (snapshot (shared w))
                     (regionBounds (area <$> snapshot (shared w))) ∅ before))
  /\ ((forall layer, layer ∈ before ->
                     intersect (transformed layer) (area d) = false) ->
      (d ∉ passActive env (shared w))
      /\ exists w' events,
           captureSample env w = Some w'
           /\ trace w' = trace w ++ events
           /\ forall luma, (listener d, luma) ∉ callbacks events).
Proof.
  intros Hheld Hwf Hkey Hstop Hlayers Hkey'.
  assert (Howner : owner ∈ snapshot (shared w))
    by (apply elem_of_snapshot; eauto).
  assert (Hd : d ∈ snapshot (shared w)) by (apply elem_of_snapshot; eauto).
  pose proof (isStopLayer_owner _ _ _ Howner Hstop) as Hisstop.
  rewrite Hlayers at 1 2 3. rewrite traverseLayers_stop by done. simpl.
  split.
  { split; [done|]. split; [|done].
    destruct (traverse_rendered (snapshot (shared w))
                (regionBounds (area <$> snapshot (shared w))) before
                {| stopLayerFound := false; listeners := ∅; rendered := [] |})
      as (r & Hr & Hsub).
    unfold traverseLayers. by rewrite Hr. }
  intros Hmiss.
  assert (Hunmarked :
            listener d ∉ listeners (traverseLayers (snapshot (shared w))
                                      (regionBounds (area <$> snapshot (shared w)))
                                      ∅ (layers env))).
  { rewrite Hlayers, traverseLayers_stop by done. simpl.
    intros [Hin|(layer & d' & Hlayer & Hd' & Hhit & Hsame)]%traverse_listeners.
    - simpl in Hin. by apply not_elem_of_empty in Hin.
    - rewrite (same_listener_same_descriptor _ _ _ Hwf Hd Hd' Hsame) in Hhit.
      rewrite (Hmiss _ Hlayer) in Hhit. done. }
  assert (Hinactive : forall d', d' ∈ passActive env (shared w) ->
                                 listener d' <> listener d).
  { intros d' Hd' Hsame. unfold passActive, activeOf in Hd'.
    apply list_elem_of_filter in Hd' as [Hmarked _].
    rewrite Hsame in Hmarked. done. }
  split; [intros Hactive; by apply (Hinactive d)|].
  destruct (captureSample_delivers_pass env w Hheld)
    as (w' & events & Hpass & Htrace & Hcallbacks).
  exists w', events. split; [done|]. split; [done|].
  intros luma Hluma. apply Hcallbacks in Hluma.
  apply elem_of_zip_l, list_elem_of_fmap in Hluma as (d' & Hsame & Hd').
  by apply (Hinactive d').
Qed.

(** C9.  Take a pass over a registry that is not empty, and any calls of
    other threads, some completed before the sampling thread has called
    [captureScreenCore], some after.  The pass runs to its end.  Its steps
    are: it reads [mDescriptors] twice (the test for an empty registry, the
    snapshot), unlocks the mutex, calls [captureScreenCore], locks the
    mutex, and calls [onSampleCollected] for the active descriptors; the
    calls of other threads fall between the unlock and the call, and
    between the call and the lock.  Between the unlock and the lock the
    only step of the sampling thread is the call of [captureScreenCore]: it
    neither reads nor writes a guarded member there, and nothing of its own
    comes between the unlock and the call or between the call and the
    lock.  Every call of another thread in this window goes through, and
    none would have, had the sampling thread kept the mutex.  The shared
    state after the pass is the one these calls alone make of the state
    before the pass.  The steps of the sampling thread, the arguments of
    its calls included, are the same whatever the other threads do in the
    window.  With no call before [captureScreenCore], the pass is the one
    of [captureSample]. *)
Theorem captureSample_unlocks_around_capture env w :
  mutexHeld w = true ->
  mDescriptors (shared w) <> ∅ ->
  exists r wa wb w1,
    captureSampleSteps env {| world := w; steps := [] |} = Some (tt, r)
    /\ steps r
       = [Reads MDescriptors; Reads MDescriptors; Does MutexUnlock]
         ++ (Elsewhere <$> early env)
         ++ [Does (passCall (capture env) (shared w))]
         ++ (Elsewhere <$> reentrant (capture env))
         ++ Does MutexLock
            :: (Does <$> passDeliveries (capture env) (shared w))
    /\ unlocked (steps r)
       = (Elsewhere <$> early env)
         ++ [Does (passCall (capture env) (shared w))]
         ++ (Elsewhere <$> reentrant (capture env))
    /\ ownSteps (unlocked (steps r))
       = [Does (passCall (capture env) (shared w))]
    /\ (forall c, runCall c w = None)
    /\ runCalls (early env)
         {| shared := shared w; mutexHeld := false;
            trace := trace w ++ [MutexUnlock] |}
       = Some wa
    /\ runCalls (reentrant (capture env))
         (emit (passCall (capture env) (shared w)) wa)
       = Some wb
    /\ world r
       = {| shared := shared wb; mutexHeld := true;
            trace := trace wb
                     ++ MutexLock :: passDeliveries (capture env) (shared w) |}
    /\ runCalls (early env ++ reentrant (capture env)) (setMutex false w)
       = Some w1
    /\ shared (world r) = shared w1
    /\ (forall env',
          layers (capture env') = layers (capture env) ->
          captured (capture env') = captured (capture env) ->
          exists r',
            captureSampleSteps env' {| world := w; steps := [] |} = Some (tt, r')
            /\ ownSteps (steps r') = ownSteps (steps r))
    /\ (early env = [] -> captureSample (capture env) w = Some (world r)).
Proof.
  intros Hheld Hne.
  destruct (captureSampleSteps_run env w [] Hheld Hne)
    as (wa & wb & Ha & Hfa & Hb & Hfb & Hrun).
  destruct (runCalls_free (early env) (setMutex false w) eq_refl)
    as (u1 & Hu1 & Hfu1 & _).
  destruct (runCalls_free (reentrant (capture env)) u1 Hfu1)
    as (w1 & Hw1 & Hfw1 & _).
  destruct (runCalls_shared (early env)
              {| shared := shared w; mutexHeld := false;
                 trace := trace w ++ [MutexUnlock] |}
              (setMutex false w) wa eq_refl eq_refl Ha)
    as (u1' & Hu1' & Hsa).
  rewrite Hu1 in Hu1'. injection Hu1' as <-.
  assert (Hsa' : shared (emit (passCall (capture env) (shared w)) wa)
                 = shared u1) by done.
  destruct (runCalls_shared (reentrant (capture env))
              (emit (passCall (capture env) (shared w)) wa) u1 wb
              Hfu1 Hsa' Hb) as (w1' & Hw1' & Hsb).
  rewrite Hw1 in Hw1'. injection Hw1' as <-.
  eexists _, wa, wb, w1. split; [exact Hrun|]. cbn [steps world].
  rewrite !app_nil_l.
  split; [done|].
  split; [unfold passCall; apply unlocked_pass|].
  split.
  { unfold passCall at 1. rewrite unlocked_pass. apply ownSteps_window. }
  split; [intros c; by apply runCall_held|].
  split; [done|]. split; [done|]. split; [done|].
  split; [rewrite runCalls_app, Hu1; exact Hw1|].
  split; [done|].
  split.
  - intros env' Hlayers Hcaptured.
    destruct (captureSampleSteps_run env' w [] Hheld Hne)
      as (wa' & wb' & _ & _ & _ & _ & Hrun').
    eexists. split; [exact Hrun'|]. cbn [steps]. rewrite !app_nil_l.
    rewrite (passCall_layers _ _ _ Hlayers),
            (passDeliveries_capture _ _ _ Hlayers Hcaptured).
    etransitivity; [apply ownSteps_pass|]. symmetry. apply ownSteps_pass.
  - intros Hearly. rewrite Hearly in Ha. injection Ha as <-.
    destruct (captureSample_run (capture env) w Hheld Hne)
      as (w2 & during & Hcalls & _ & _ & _ & ->).
    unfold emit, passCall in Hb. cbn [shared mutexHeld trace] in Hb.
    rewrite <- app_assoc in Hb. cbn [app] in Hb.
    rewrite Hb in Hcalls. injection Hcalls as <-.
    unfold passDeliveries. done.
Qed.
(** C10.  A call of [addListener], [removeListener] or [binderDied] that
    finds the mutex free changes neither flag and no registry entry but
    the one of its binder; [sampleNow] sets the request flag and changes
    nothing else; a pass during which no other thread calls in leaves the
    whole shared state as it found it. *)
Theorem entry_points_keep_to_their_slice
    samplingArea stopLayerHandle l who env w worker :
  mutexHeld w = false ->
  mutexHeld worker = true ->
  reentrant env = [] ->
  (exists w', addListener samplingArea stopLayerHandle l w = Some w'
              /\ mSampleRequested (shared w') = mSampleRequested (shared w)
              /\ mRunning (shared w') = mRunning (shared w)
              /\ forall key, key <> asBinder l ->
                   mDescriptors (shared w') !! key = mDescriptors (shared w) !! key)
  /\ (exists w', removeListener l w = Some w'
                 /\ mSampleRequested (shared w') = mSampleRequested (shared w)
                 /\ mRunning (shared w') = mRunning (shared w)
                 /\ forall key, key <> asBinder l ->
                      mDescriptors (shared w') !! key
                      = mDescriptors (shared w) !! key)
  /\ (exists w', binderDied who w = Some w'
                 /\ mSampleRequested (shared w') = mSampleRequested (shared w)
                 /\ mRunning (shared w') = mRunning (shared w)
                 /\ forall key, key <> who ->
                      mDescriptors (shared w') !! key
                      = mDescriptors (shared w) !! key)
  /\ (exists w', sampleNow w = Some w'
                 /\ mSampleRequested (shared w') = true
                 /\ mRunning (shared w') = mRunning (shared w)
                 /\ mDescriptors (shared w') = mDescriptors (shared w))
  /\ (exists w', captureSample env worker = Some w'
                 /\ shared w' = shared worker).
Proof.
  intros Hfree Hheld Hquiet.
  unfold addListener, removeListener, binderDied, sampleNow.
  rewrite !lock_guard_free by done.
  split; [|split; [|split; [|split]]].
  - eexists. split; [done|]. simpl. split; [done|]. split; [done|].
    intros key Hkey. unfold emplace.
    destruct (mDescriptors (shared w) !! asBinder l); [done|].
    by rewrite lookup_insert_ne.
  - eexists. split; [done|]. simpl. split; [done|]. split; [done|].
    intros key Hkey. by rewrite lookup_delete_ne.
  - eexists. split; [done|]. simpl. split; [done|]. split; [done|].
    intros key Hkey. by rewrite lookup_delete_ne.
  - eexists. split; [done|]. done.
  - destruct (decide (mDescriptors (shared worker) = ∅)) as [Hempty|Hne].
    + exists worker. by rewrite captureSample_empty.
    + destruct (captureSample_run env worker Hheld Hne)
        as (w1 & during & Hcalls & _ & _ & _ & ->).
      rewrite Hquiet in Hcalls. injection Hcalls as <-.
      eexists. split; [done|]. done.
Qed.
End EngineClaims.

(* ===================================================================== *)
(** ** The claims on the example pass *)

Lemma exampleState_wf : @registry_wf exampleCollaborators exampleState.
Proof.
  unfold registry_wf, exampleState. simpl.
  apply map_Forall_insert_2; [done|]. by apply map_Forall_singleton.
Qed.

Lemma exampleState_not_empty : mDescriptors exampleState <> ∅.
Proof. unfold exampleState. simpl. apply insert_non_empty. Qed.

(** C3, the claim as stated.  Listener 1 is registered with [descriptorA];
    registering it again with another area does not replace
    [descriptorA]. *)
Lemma addListener_again_does_not_replace :
  mDescriptors (shared callerWorld) !! 1%positive = Some descriptorA
  /\ (w' ← @addListener exampleCollaborators (Rect.make 0 0 99 99) None
                        1%positive callerWorld;
      mDescriptors (shared w') !! 1%positive) = Some descriptorA
  /\ descriptorA
     <> {| area := Rect.make 0 0 99 99; stopLayer := None;
           listener := 1%positive |}.
Proof. repeat split; by vm_compute. Qed.

Lemma addListener_keeps_first_descriptor_witness :
  exists w',
    @addListener exampleCollaborators (Rect.make 0 0 99 99) None 1%positive
                 callerWorld = Some w'
    /\ shared w' = shared callerWorld
    /\ mDescriptors (shared w') !! 1%positive = Some descriptorA.
Proof.
  apply (@addListener_keeps_first_descriptor exampleCollaborators
           (Rect.make 0 0 99 99) None 1%positive callerWorld descriptorA);
    reflexivity.
Defined.

Lemma captureSample_delivers_all_or_nothing_witness :
  (exists w' events,
     @captureSample exampleCollaborators exampleCapture workerWorld = Some w'
     /\ trace w' = trace workerWorld ++ events
     /\ callbacks events = [(1%positive, Majority 255)])
  /\ (exists w' events,
        @captureSample exampleCollaborators failedCapture workerWorld = Some w'
        /\ trace w' = trace workerWorld ++ events
        /\ callbacks events = []).
Proof.
  split.
  - destruct (@captureSample_delivers_all_or_nothing exampleCollaborators
                exampleCapture workerWorld)
      as (w' & events & Hrun & Htrace & _ & Hall & _).
    + reflexivity.
    + exact exampleState_wf.
    + exists w', events. split; [exact Hrun|]. split; [exact Htrace|].
      rewrite Hall; vm_compute; reflexivity.
  - destruct (@captureSample_delivers_all_or_nothing exampleCollaborators
                failedCapture workerWorld)
      as (w' & events & Hrun & Htrace & _ & _ & _ & Hnone).
    + reflexivity.
    + exact exampleState_wf.
    + exists w', events. split; [exact Hrun|]. split; [exact Htrace|].
      apply Hnone; [reflexivity|]. vm_compute. discriminate.
Defined.

Lemma stop_layer_suppresses_later_layers_witness :
  (rendered (@traverseLayers exampleCollaborators (snapshot (shared workerWorld))
               (boundingBox (area <$> snapshot (shared workerWorld))) ∅
               (layers exampleCapture))
   = rendered (@traverseLayers exampleCollaborators
                 (snapshot (shared workerWorld))
                 (boundingBox (area <$> snapshot (shared workerWorld))) ∅
                 [cornerLayer])
   /\ (rendered (@traverseLayers exampleCollaborators
                   (snapshot (shared workerWorld))
                   (boundingBox (area <$> snapshot (shared workerWorld))) ∅
                   (layers exampleCapture))
       `sublist_of` (layerId <$> [cornerLayer]))
   /\ listeners (@traverseLayers exampleCollaborators
                   (snapshot (shared workerWorld))
                   (boundingBox (area <$> snapshot (shared workerWorld))) ∅
                   (layers exampleCapture))
      = listeners (@traverseLayers exampleCollaborators
                     (snapshot (shared workerWorld))
                     (boundingBox (area <$> snapshot (shared workerWorld))) ∅
                     [cornerLayer]))
  /\ (descriptorB ∉ @passActive exampleCollaborators exampleCapture
                      (shared workerWorld))
  /\ exists w' events,
       @captureSample exampleCollaborators exampleCapture workerWorld = Some w'
       /\ trace w' = trace workerWorld ++ events
       /\ forall luma, (listener descriptorB, luma) ∉ callbacks events.
Proof.
  destruct (@stop_layer_suppresses_later_layers exampleCollaborators
              exampleCapture workerWorld 2%positive descriptorB
              2%positive descriptorB
              [cornerLayer] boundaryLayer [screenLayer])
    as [Hdropped Hinactive].
  - reflexivity.
  - exact exampleState_wf.
  - reflexivity.
  - reflexivity.
  - reflexivity.
  - reflexivity.
  - split; [exact Hdropped|]. apply Hinactive.
    intros layer Hlayer. apply list_elem_of_singleton in Hlayer. subst layer.
    reflexivity.
Defined.

Lemma captureSample_unlocks_around_capture_witness :
  exists r,
    @captureSampleSteps exampleCollaborators exampleWindow
      {| world := workerWorld; steps := [] |} = Some (tt, r)
    /\ steps r
       = [Reads MDescriptors; Reads MDescriptors; Does MutexUnlock;
          Elsewhere (CallAddListener (Rect.make 0 0 9 9) None 3%positive);
          Elsewhere CallSampleNow;
          Does (CaptureScreenCore [3%positive]);
          Elsewhere CallSampleNow;
          Does MutexLock;
          Does (OnSampleCollected 1%positive (Majority 255))]
    /\ ownSteps (unlocked (steps r)) = [Does (CaptureScreenCore [3%positive])]
    /\ mSampleRequested (shared (world r)) = true
    /\ dom (mDescriptors (shared (world r)))
       = {[ 1%positive; 2%positive; 3%positive ]}.
Proof.
  destruct (@captureSample_unlocks_around_capture exampleCollaborators
              exampleWindow workerWorld)
    as (r & wa & wb & w1 & Hrun & Hsteps & _ & Hown & _ & Ha & Hb & Hworld & _).
  - reflexivity.
  - exact exampleState_not_empty.
  - exists r. split; [exact Hrun|]. split; [rewrite Hsteps; by vm_compute|].
    split; [rewrite Hown; by vm_compute|].
    vm_compute in Ha. injection Ha as <-.
    vm_compute in Hb. injection Hb as <-.
    rewrite Hworld. split; [reflexivity|]. by vm_compute.
Defined.

Lemma entry_points_keep_to_their_slice_witness :
  (exists w', @addListener exampleCollaborators (Rect.make 0 0 9 9) None
                3%positive callerWorld = Some w'
              /\ mSampleRequested (shared w') = mSampleRequested (shared callerWorld)
              /\ mRunning (shared w') = mRunning (shared callerWorld)
              /\ forall key, key <> 3%positive ->
                   mDescriptors (shared w') !! key
                   = mDescriptors (shared callerWorld) !! key)
  /\ (exists w', @removeListener exampleCollaborators 3%positive callerWorld
                 = Some w'
                 /\ mSampleRequested (shared w')
                    = mSampleRequested (shared callerWorld)
                 /\ mRunning (shared w') = mRunning (shared callerWorld)
                 /\ forall key, key <> 3%positive ->
                      mDescriptors (shared w') !! key
                      = mDescriptors (shared callerWorld) !! key)
  /\ (exists w', @binderDied 2%positive callerWorld = Some w'
                 /\ mSampleRequested (shared w')
                    = mSampleRequested (shared callerWorld)
                 /\ mRunning (shared w') = mRunning (shared callerWorld)
                 /\ forall key, key <> 2%positive ->
                      mDescriptors (shared w') !! key
                      = mDescriptors (shared callerWorld) !! key)
  /\ (exists w', @sampleNow callerWorld = Some w'
                 /\ mSampleRequested (shared w') = true
                 /\ mRunning (shared w') = mRunning (shared callerWorld)
                 /\ mDescriptors (shared w') = mDescriptors (shared callerWorld))
  /\ (exists w', @captureSample exampleCollaborators quietCapture workerWorld
                 = Some w'
                 /\ shared w' = shared workerWorld).
Proof.
  apply (@entry_points_keep_to_their_slice exampleCollaborators
           (Rect.make 0 0 9 9) None 3%positive 2%positive quietCapture
           callerWorld workerWorld); reflexivity.
Defined.

(* ===================================================================== *)
(** ** More on the sampler *)

Lemma countUpTo_zero (levels : list Z) : countUpTo 0 levels = 0.
Proof.
  unfold countUpTo. induction levels as [|l levels IH]; [done|].
  rewrite filter_cons. destruct (decide (1 <= l <= 0)); [lia | done].
Qed.

Lemma countUpTo_succ (k : Z) (levels : list Z) :
  0 <= k -> countUpTo (k + 1) levels = countUpTo k levels + countLevel (k + 1) levels.
Proof.
  intros Hk. unfold countUpTo, countLevel.
  induction levels as [|l levels IH]; [done|].
  rewrite !filter_cons.
  destruct (decide (1 <= l <= k + 1)), (decide (1 <= l <= k)),
    (decide (l = k + 1)); simpl length; lia.
Qed.

Lemma countUpTo_le_length (k : Z) (levels : list Z) :
  0 <= countUpTo k levels <= Z.of_nat (length levels).
Proof.
  unfold countUpTo. pose proof (length_filter (fun l => 1 <= l <= k) levels). lia.
Qed.

(** The scan keeps the count of every level in its bucket, as long as the
    counts stay within [int32_t]. *)
Lemma scanPixel_counts data maj buckets index pixel seen :
  readPixel data index = Some pixel ->
  length buckets = bucketCount ->
  (forall k, 0 <= k < 256 -> bucketAt buckets k = countLevel k seen) ->
  Z.of_nat (length seen) < Int32.max_signed ->
  length (increment buckets (lumaLevel pixel)) = bucketCount
  /\ (forall k, 0 <= k < 256 ->
        bucketAt (increment buckets (lumaLevel pixel)) k
        = countLevel k (seen ++ [lumaLevel pixel]))
  /\ scanPixel data maj buckets index
     = if maj <? countLevel (lumaLevel pixel) (seen ++ [lumaLevel pixel])
       then Returned (Majority (lumaLevel pixel))
       else Scanning (increment buckets (lumaLevel pixel)).
Proof.
  intros Hread Hlen Hbuckets Hsmall.
  pose proof (lumaLevel_range pixel) as Hx.
  assert (Hcounts : forall k, 0 <= k < 256 ->
            bucketAt (increment buckets (lumaLevel pixel)) k
            = countLevel k (seen ++ [lumaLevel pixel])).
  { intros k Hk. rewrite countLevel_app, countLevel_cons, countLevel_nil.
    destruct (decide (lumaLevel pixel = k)) as [<-|Hne].
    - rewrite bucketAt_increment_eq by (rewrite Hlen; unfold bucketCount; lia).
      rewrite Hbuckets by done. unfold Int32.add.
      pose proof (countLevel_nonneg (lumaLevel pixel) seen).
      pose proof (countLevel_le_length (lumaLevel pixel) seen).
      rewrite wrap_small; [lia|].
      unfold Int32.in_range, Int32.min_signed, Int32.max_signed in *. lia.
    - rewrite bucketAt_increment_ne by lia. rewrite Hbuckets by done. lia. }
  split; [by rewrite length_increment|]. split; [done|].
  unfold scanPixel. rewrite Hread. cbv zeta. by rewrite Hcounts.
Qed.

(** A scan that returns a level has counted it past the threshold. *)
Lemma scanIndices_majority_sound data maj level :
  forall indices pixels seen buckets,
    Forall2 (fun index pixel => readPixel data index = Some pixel) indices pixels ->
    length buckets = bucketCount ->
    (forall k, 0 <= k < 256 -> bucketAt buckets k = countLevel k seen) ->
    Z.of_nat (length (seen ++ (lumaLevel <$> pixels))) <= Int32.max_signed ->
    scanIndices data maj indices buckets = Returned (Majority level) ->
    maj < countLevel level (seen ++ (lumaLevel <$> pixels)).
Proof.
  induction indices as [|index indices IH];
    intros pixels seen buckets Hread Hlen Hbuckets Hfits Hscan; [done|].
  apply Forall2_cons_inv_l in Hread as (pixel & pixels' & Hpixel & Hrest & ->).
  rewrite fmap_cons in *.
  assert (Hall : seen ++ lumaLevel pixel :: (lumaLevel <$> pixels')
                 = (seen ++ [lumaLevel pixel]) ++ (lumaLevel <$> pixels'))
    by (by rewrite <- app_assoc).
  rewrite length_app in Hfits. simpl length in Hfits.
  destruct (scanPixel_counts data maj buckets index pixel seen)
    as (Hlen' & Hcounts & Hstep); [done | done | done | lia |].
  simpl in Hscan. rewrite Hstep in Hscan.
  destruct (maj <? _) eqn:Htest.
  - injection Hscan as <-. apply Z.ltb_lt in Htest.
    rewrite Hall, (countLevel_app _ (seen ++ _)).
    pose proof (countLevel_nonneg (lumaLevel pixel) (lumaLevel <$> pixels')). lia.
  - rewrite Hall. apply (IH pixels' _ (increment buckets (lumaLevel pixel)));
      try done.
    rewrite length_app, length_app. simpl length. lia.
Qed.

(** A scan in which no level passes the threshold runs to its end and
    leaves in every bucket the number of pixels of its level. *)
Lemma scanIndices_complete data maj :
  forall indices pixels seen buckets,
    Forall2 (fun index pixel => readPixel data index = Some pixel) indices pixels ->
    length buckets = bucketCount ->
    (forall k, 0 <= k < 256 -> bucketAt buckets k = countLevel k seen) ->
    Z.of_nat (length (seen ++ (lumaLevel <$> pixels))) <= Int32.max_signed ->
    (forall level, countLevel level (seen ++ (lumaLevel <$> pixels)) <= maj) ->
    exists buckets',
      scanIndices data maj indices buckets = Scanning buckets'
      /\ length buckets' = bucketCount
      /\ forall k, 0 <= k < 256 ->
           bucketAt buckets' k = countLevel k (seen ++ (lumaLevel <$> pixels)).
Proof.
  induction indices as [|index indices IH];
    intros pixels seen buckets Hread Hlen Hbuckets Hfits Hlow.
  - apply Forall2_nil_inv_l in Hread as ->. rewrite fmap_nil, app_nil_r.
    by exists buckets.
  - apply Forall2_cons_inv_l in Hread as (pixel & pixels' & Hpixel & Hrest & ->).
    rewrite fmap_cons in *.
    assert (Hall : seen ++ lumaLevel pixel :: (lumaLevel <$> pixels')
                   = (seen ++ [lumaLevel pixel]) ++ (lumaLevel <$> pixels'))
      by (by rewrite <- app_assoc).
    rewrite length_app in Hfits. simpl length in Hfits.
    destruct (scanPixel_counts data maj buckets index pixel seen)
      as (Hlen' & Hcounts & Hstep); [done | done | done | lia |].
    simpl. rewrite Hstep.
    destruct (maj <? _) eqn:Htest.
    + apply Z.ltb_lt in Htest. specialize (Hlow (lumaLevel pixel)).
      rewrite Hall, (countLevel_app _ (seen ++ _)) in Hlow.
      pose proof (countLevel_nonneg (lumaLevel pixel) (lumaLevel <$> pixels')).
      lia.
    + rewrite Hall. apply IH; try done.
      * rewrite length_app, length_app. simpl length. lia.
      * intros level. rewrite <- Hall. apply Hlow.
Qed.

(** The cumulative loop over the exact counts: it stops at the first entry
    from 1 on at which the running sum passes the threshold, and reads the
    entry after the last one when there is no such entry. *)
Lemma accumulate_counts buckets maj levels :
  length buckets = bucketCount ->
  (forall k, 0 <= k < 256 -> bucketAt buckets k = countLevel k levels) ->
  Z.of_nat (length levels) <= Int32.max_signed ->
  forall remaining bucket,
    0 <= bucket ->
    (0 < remaining)%nat ->
    bucket + Z.of_nat remaining = 256 ->
    (forall j, 1 <= j <= bucket -> countUpTo j levels <= maj) ->
    (exists k, bucket < k <= 255
               /\ accumulate buckets maj remaining bucket (countUpTo bucket levels)
                  = Cumulative k
               /\ maj < countUpTo k levels
               /\ forall j, 1 <= j < k -> countUpTo j levels <= maj)
    \/ (accumulate buckets maj remaining bucket (countUpTo bucket levels)
        = BucketOutOfRange 256
        /\ forall j, 1 <= j <= 255 -> countUpTo j levels <= maj).
Proof.
  intros Hlen Hbuckets Hfits.
  induction remaining as [|remaining IH]; intros bucket Hb Hpos Hsum Hlow; [lia|].
  simpl.
  destruct (buckets !! Z.to_nat (bucket + 1)) as [count|] eqn:Hget.
  - pose proof (lookup_lt_Some _ _ _ Hget) as Hin.
    rewrite Hlen in Hin. unfold bucketCount in Hin.
    assert (Hcount : count = countLevel (bucket + 1) levels).
    { rewrite <- Hbuckets by lia. unfold bucketAt. by rewrite Hget. }
    assert (Hacc : Int32.add (countUpTo bucket levels) count
                   = countUpTo (bucket + 1) levels).
    { rewrite countUpTo_succ, Hcount by done. unfold Int32.add.
      apply wrap_small.
      pose proof (countUpTo_le_length (bucket + 1) levels) as Hbound.
      rewrite countUpTo_succ in Hbound by done.
      unfold Int32.in_range, Int32.min_signed, Int32.max_signed in *. lia. }
    rewrite Hacc.
    destruct (maj <? countUpTo (bucket + 1) levels) eqn:Htest.
    + apply Z.ltb_lt in Htest. left. exists (bucket + 1).
      split; [lia|]. split; [done|]. split; [done|].
      intros j Hj. apply Hlow. lia.
    + apply Z.ltb_ge in Htest.
      destruct (IH (bucket + 1)) as [(k & Hk & Hrun & Hpast & Hbefore)|[Hrun Hall]];
        [lia | lia | lia | | |].
      * intros j Hj. destruct (decide (j = bucket + 1)) as [->|]; [done|].
        apply Hlow. lia.
      * left. exists k. split; [lia|]. done.
      * by right.
  - apply lookup_ge_None in Hget. rewrite Hlen in Hget. unfold bucketCount in Hget.
    right. split; [f_equal; lia|].
    intros j Hj. apply Hlow. lia.
Qed.

Lemma scanIndices_ext data data' maj :
  forall indices buckets,
    (forall index, index ∈ indices -> readPixel data index = readPixel data' index) ->
    scanIndices data maj indices buckets = scanIndices data' maj indices buckets.
Proof.
  induction indices as [|index indices IH]; intros buckets Hsame; [done|].
  simpl. unfold scanPixel. rewrite <- (Hsame index) by left.
  destruct (readPixel data index) as [pixel|]; [|done].
  destruct (maj <? _); [done|]. apply IH. intros i Hi. apply Hsame. by right.
Qed.

Lemma scanIndices_pixel_fault data maj index :
  forall indices buckets,
    scanIndices data maj indices buckets = Returned (PixelOutOfRange index) ->
    index ∈ indices /\ readPixel data index = None.
Proof.
  induction indices as [|i indices IH]; intros buckets Hscan; [done|].
  simpl in Hscan. unfold scanPixel in Hscan.
  destruct (readPixel data i) as [pixel|] eqn:Hread.
  - destruct (maj <? _); [done|].
    apply IH in Hscan as [Hin Hnone]. split; [by right | done].
  - injection Hscan as <-. split; [left | done].
Qed.

(** X1.  The fourth byte of a pixel (its alpha channel) has no part in its
    luma level: a pixel and its three colour channels alone have the same
    level. *)
Theorem lumaLevel_ignores_alpha pixel : lumaLevel pixel = lumaLevel (colour pixel).
Proof.
  unfold lumaLevel, pixelLuma, red, green, blue, colour.
  rewrite !Z.shiftr_land, <- !Z.land_assoc.
  change (Z.land 16777215 255) with 255.
  change (Z.land (Z.shiftr 16777215 8) 255) with 255.
  change (Z.land (Z.shiftr 16777215 16) 255) with 255.
  reflexivity.
Qed.

(** X2.  A grey pixel, with the same value [c] in its red, green and blue
    channels, has luma level [c]: the three Rec. 709 weights sum to one
    closely enough for the rounding to give [c] back, for each of the 256
    values. *)
Theorem lumaLevel_grey c : 0 <= c <= 255 -> lumaLevel (grey c) = c.
Proof.
  intros Hc.
  assert (Hall : forallb (fun c => lumaLevel (grey c) =? c) (seqZ 0 256) = true)
    by (by vm_compute).
  rewrite forallb_forall in Hall. apply Z.eqb_eq, Hall.
  apply list_elem_of_In, elem_of_seqZ. lia.
Qed.

Lemma lumaLevel_grey_witness : lumaLevel (grey 200) = 200.
Proof. apply (lumaLevel_grey 200). lia. Defined.

(** X3.  Whatever the buffer, the stride and the rectangle, a call of
    [sampleArea] ends in one of four ways.  It returns [luma / 255.0f] for
    a level from 0 to 255 from inside the scan, a value of [0, 1].  It
    returns [bucket / 255.0f] for a level from 1 to 255, never 0, from the
    cumulative loop, a value of [0, 1].  It reads a pixel outside the
    buffer.  Or its cumulative loop indexes [brightnessBuckets] with 256,
    one past the last entry; the embedding stops at this read, which is
    undefined, and the value [bucket / 255.0f] that the last line would
    then form from a [bucket] of 256 or of 257 is not in [0, 1]. *)
Theorem sampleArea_outcomes data stride area :
  (exists luma,
     0 <= luma <= 255
     /\ sampleArea data stride area = Majority luma
     /\ (in_unit_interval <$> returned (Majority luma)) = Some true)
  \/ (exists bucket,
        1 <= bucket <= 255
        /\ sampleArea data stride area = Cumulative bucket
        /\ (in_unit_interval <$> returned (Cumulative bucket)) = Some true)
  \/ (exists index, sampleArea data stride area = PixelOutOfRange index)
  \/ (sampleArea data stride area = BucketOutOfRange 256
      /\ (in_unit_interval <$> returned (Cumulative 256)) = Some false
      /\ (in_unit_interval <$> returned (Cumulative 257)) = Some false).
Proof.
  rewrite sampleArea_unfold.
  destruct (scanIndices data (majorityOf area) (areaIndices stride area)
                        emptyBuckets) as [buckets|o] eqn:Hscan.
  - apply scanIndices_length in Hscan.
    assert (Hlen : length buckets = 256%nat) by (by rewrite Hscan).
    destruct (accumulate_outcome buckets (majorityOf area) (length buckets) 0 0)
      as [(k & -> & Hk)| ->]; [lia | lia | lia | |].
    + right. left. exists k. split; [lia|]. split; [done|].
      cbn [returned fmap option_fmap option_map].
      by rewrite level_in_unit_interval by lia.
    + right. right. right. rewrite Hlen. repeat split; by vm_compute.
  - apply scanIndices_returned in Hscan as [(luma & -> & Hluma)|(index & ->)].
    + left. exists luma. split; [done|]. split; [done|].
      cbn [returned fmap option_fmap option_map].
      by rewrite level_in_unit_interval.
    + right. right. left. by exists index.
Qed.

(** X4.  [sampleArea] reads no pixel outside the rectangle: when it stops
    at a read outside the buffer, the offset it read is one of the offsets
    [row * stride + column] of the rectangle, and the buffer has no pixel
    there. *)
Theorem sampleArea_faults_inside_area data stride area index :
  sampleArea data stride area = PixelOutOfRange index ->
  index ∈ areaIndices stride area /\ readPixel data index = None.
Proof.
  rewrite sampleArea_unfold.
  destruct (scanIndices data (majorityOf area) (areaIndices stride area)
                        emptyBuckets) as [buckets|o] eqn:Hscan.
  - apply scanIndices_length in Hscan.
    assert (Hlen : length buckets = 256%nat) by (by rewrite Hscan).
    destruct (accumulate_outcome buckets (majorityOf area) (length buckets) 0 0)
      as [(k & -> & Hk)| ->]; [lia | lia | lia | done | done].
  - intros ->. by apply scanIndices_pixel_fault in Hscan.
Qed.

Lemma sampleArea_faults_inside_area_witness :
  1 ∈ areaIndices 1 (Rect.make 0 0 1 2) /\ readPixel [white] 1 = None.
Proof.
  apply (sampleArea_faults_inside_area [white] 1 (Rect.make 0 0 1 2) 1).
  vm_compute. reflexivity.
Defined.

(** X5.  The result of [sampleArea] depends on the buffer only through the
    pixels of the rectangle: two buffers that hold the same pixel, or both
    none, at every offset of the rectangle give the same result. *)
Theorem sampleArea_reads_only_area data data' stride area :
  (forall index, index ∈ areaIndices stride area ->
                 readPixel data index = readPixel data' index) ->
  sampleArea data stride area = sampleArea data' stride area.
Proof.
  intros Hsame. rewrite !sampleArea_unfold.
  by rewrite (scanIndices_ext data data' _ _ _ Hsame).
Qed.

Lemma sampleArea_reads_only_area_witness :
  sampleArea [white; white; black; grey 9] 2 (Rect.make 0 0 1 2)
  = sampleArea [white; grey 40; black] 2 (Rect.make 0 0 1 2).
Proof.
  apply (sampleArea_reads_only_area [white; white; black; grey 9]
           [white; grey 40; black] 2 (Rect.make 0 0 1 2)).
  intros index Hin.
  change (areaIndices 2 (Rect.make 0 0 1 2)) with [0; 2] in Hin.
  apply elem_of_cons in Hin as [->|Hin]; [reflexivity|].
  apply list_elem_of_singleton in Hin as ->. reflexivity.
Defined.

(** The number of pixels of a readable rectangle whose area fits
    [int32_t] fits too. *)
Lemma areaPixels_length data stride area pixels :
  areaFits area ->
  areaPixels data stride area = Some pixels ->
  Z.of_nat (length pixels) <= Int32.max_signed
  /\ (pixels <> [] ->
      majorityOf area = Z.of_nat (length pixels) / 2).
Proof.
  intros Hfits Hpixels. unfold areaPixels in Hpixels.
  pose proof (length_mapM _ _ _ Hpixels) as Hlen.
  destruct (decide (areaIndices stride area = [])) as [Hnil|Hne].
  - rewrite Hnil in Hlen. destruct pixels; [|done].
    split; [by vm_compute | done].
  - destruct (majorityOf_pixels stride area Hfits Hne) as [Hmaj Hmax].
    rewrite Hlen in Hmaj, Hmax. done.
Qed.

(** X6.  Take a rectangle whose pixels all lie inside the buffer and whose
    area is an [int32_t], and in which no level has more pixels than the
    threshold.  Then [sampleArea] ends in its cumulative loop, which does
    not count level 0: it returns the smallest level [k] from 1 to 255
    such that more pixels than the threshold have a level from 1 to [k],
    and reads entry 256 of [brightnessBuckets] when there is no such
    level. *)
Theorem sampleArea_without_majority data stride area pixels :
  areaFits area ->
  areaPixels data stride area = Some pixels ->
  (forall level, countLevel level (lumaLevel <$> pixels) <= majorityOf area) ->
  (exists k, 1 <= k <= 255
             /\ sampleArea data stride area = Cumulative k
             /\ majorityOf area < countUpTo k (lumaLevel <$> pixels)
             /\ forall j, 1 <= j < k ->
                  countUpTo j (lumaLevel <$> pixels) <= majorityOf area)
  \/ (sampleArea data stride area = BucketOutOfRange 256
      /\ forall j, 1 <= j <= 255 ->
           countUpTo j (lumaLevel <$> pixels) <= majorityOf area).
Proof.
  intros Hfits Hpixels Hlow.
  destruct (areaPixels_length _ _ _ _ Hfits Hpixels) as [Hmax _].
  unfold areaPixels in Hpixels. apply mapM_Some in Hpixels.
  destruct (scanIndices_complete data (majorityOf area) (areaIndices stride area)
              pixels [] emptyBuckets)
    as (buckets & Hscan & Hlen & Hcounts); try done.
  - intros k _. by rewrite bucketAt_empty, countLevel_nil.
  - by rewrite app_nil_l, length_fmap.
  - rewrite app_nil_l in Hcounts.
    rewrite sampleArea_unfold, Hscan, Hlen.
    pose proof (accumulate_counts buckets (majorityOf area) (lumaLevel <$> pixels)
                  Hlen Hcounts) as Hloop.
    rewrite length_fmap in Hloop. specialize (Hloop Hmax 256%nat 0).
    rewrite countUpTo_zero in Hloop.
    destruct Hloop as [(k & Hk & Hrun & Hpast & Hbefore)|[Hrun Hall]];
      try lia; try (unfold bucketCount; lia).
    + left. exists k. split; [lia | done].
    + by right.
Qed.

Lemma sampleArea_without_majority_witness :
  (exists k, 1 <= k <= 255
             /\ sampleArea [grey 0; grey 1; grey 2; grey 2] 4 (Rect.make 0 0 4 1)
                = Cumulative k
             /\ majorityOf (Rect.make 0 0 4 1)
                < countUpTo k (lumaLevel <$> [grey 0; grey 1; grey 2; grey 2])
             /\ forall j, 1 <= j < k ->
                  countUpTo j (lumaLevel <$> [grey 0; grey 1; grey 2; grey 2])
                  <= majorityOf (Rect.make 0 0 4 1))
  \/ (sampleArea [grey 0; grey 1; grey 2; grey 2] 4 (Rect.make 0 0 4 1)
      = BucketOutOfRange 256
      /\ forall j, 1 <= j <= 255 ->
           countUpTo j (lumaLevel <$> [grey 0; grey 1; grey 2; grey 2])
           <= majorityOf (Rect.make 0 0 4 1)).
Proof.
  apply (sampleArea_without_majority [grey 0; grey 1; grey 2; grey 2] 4
           (Rect.make 0 0 4 1) [grey 0; grey 1; grey 2; grey 2]).
  - unfold areaFits, Int32.max_signed; simpl; lia.
  - reflexivity.
  - intros level.
    change (lumaLevel <$> [grey 0; grey 1; grey 2; grey 2]) with [0; 1; 2; 2].
    change (majorityOf (Rect.make 0 0 4 1)) with 2.
    rewrite !countLevel_cons, countLevel_nil.
    repeat case_decide; lia.
Defined.

(** X7.  Take a rectangle with at least one pixel, all inside the buffer,
    whose area is an [int32_t].  [sampleArea] returns a level from inside
    the scan exactly when more than half of the pixels of the rectangle
    have that level. *)
Theorem sampleArea_early_exit_iff_majority data stride area pixels level :
  areaFits area ->
  areaPixels data stride area = Some pixels ->
  pixels <> [] ->
  sampleArea data stride area = Majority level
  <-> Z.of_nat (length pixels) < 2 * countLevel level (lumaLevel <$> pixels).
Proof.
  intros Hfits Hpixels Hne. split.
  - intros Hexit.
    destruct (areaPixels_length _ _ _ _ Hfits Hpixels) as [Hmax Hmaj].
    specialize (Hmaj Hne).
    unfold areaPixels in Hpixels. apply mapM_Some in Hpixels.
    rewrite sampleArea_unfold in Hexit.
    destruct (scanIndices data (majorityOf area) (areaIndices stride area)
                          emptyBuckets) as [buckets|o] eqn:Hscan.
    + apply scanIndices_length in Hscan.
      assert (Hlen : length buckets = 256%nat) by (by rewrite Hscan).
      destruct (accumulate_outcome buckets (majorityOf area) (length buckets) 0 0)
        as [(k & Hk & _)|Hk]; [lia | lia | lia | |];
        rewrite Hk in Hexit; done.
    + subst o.
      pose proof (scanIndices_majority_sound data (majorityOf area) level
                    (areaIndices stride area) pixels [] emptyBuckets Hpixels
                    eq_refl) as Hsound.
      rewrite app_nil_l, length_fmap in Hsound.
      assert (Hpast : majorityOf area < countLevel level (lumaLevel <$> pixels)).
      { apply Hsound; try done. intros k _.
        by rewrite bucketAt_empty, countLevel_nil. }
      pose proof (half_bounds (Z.of_nat (length pixels))). lia.
  - by apply majority_level_returned.
Qed.

Lemma sampleArea_early_exit_iff_majority_witness :
  sampleArea [black; white; white] 3 (Rect.make 0 0 3 1) = Majority 255
  <-> Z.of_nat (length [black; white; white])
      < 2 * countLevel 255 (lumaLevel <$> [black; white; white]).
Proof.
  apply (sampleArea_early_exit_iff_majority [black; white; white] 3
           (Rect.make 0 0 3 1) [black; white; white] 255).
  - unfold areaFits, Int32.max_signed; simpl; lia.
  - reflexivity.
  - discriminate.
Defined.

(* ===================================================================== *)
(** ** More on the registry *)

Section RegistryFacts.
Context `{Collaborators}.

(** X8.  When the binder of a listener is not yet a key of the registry
    and the mutex is free, [addListener] asks for the death notice of the
    binder and stores the descriptor under it: the area as given, the
    owner of the handle as stop layer, no stop layer for a null handle. *)
Theorem addListener_registers samplingArea stopLayerHandle l w :
  mutexHeld w = false ->
  mDescriptors (shared w) !! asBinder l = None ->
  exists w',
    addListener samplingArea stopLayerHandle l w = Some w'
    /\ mDescriptors (shared w') !! asBinder l
       = Some {| area := samplingArea;
                 stopLayer := match stopLayerHandle with
                              | Some handle => owner handle
                              | None => None
                              end;
                 listener := l |}
    /\ trace w' = trace w ++ [LinkToDeath (asBinder l)].
Proof.
  intros Hfree Habsent. unfold addListener.
  rewrite lock_guard_free by done. eexists. split; [done|]. simpl.
  unfold emplace. rewrite Habsent. by rewrite lookup_insert_eq.
Qed.

(** X9.  Registering a listener whose binder is not a key and then
    removing it gives back the shared state as it was. *)
Theorem addListener_removeListener samplingArea stopLayerHandle l w :
  mutexHeld w = false ->
  mDescriptors (shared w) !! asBinder l = None ->
  exists w1 w2,
    addListener samplingArea stopLayerHandle l w = Some w1
    /\ removeListener l w1 = Some w2
    /\ shared w2 = shared w.
Proof.
  intros Hfree Habsent. unfold addListener, removeListener.
  rewrite lock_guard_free by done. eexists. eexists. split; [done|].
  rewrite lock_guard_free by done. split; [done|]. simpl.
  unfold setDescriptors, emplace. simpl. rewrite Habsent.
  rewrite delete_insert_id by done. by destruct (shared w).
Qed.

(** X10.  Removing a listener whose binder is not a key of the registry,
    and the death of a binder that is not a key, change nothing: the
    shared state and the trace stay as they are, and nothing fails. *)
Theorem removeListener_absent l who w :
  mutexHeld w = false ->
  mDescriptors (shared w) !! asBinder l = None ->
  mDescriptors (shared w) !! who = None ->
  (exists w', removeListener l w = Some w'
              /\ shared w' = shared w /\ trace w' = trace w)
  /\ (exists w', binderDied who w = Some w'
                 /\ shared w' = shared w /\ trace w' = trace w).
Proof.
  intros Hfree Hl Hwho. unfold removeListener, binderDied.
  rewrite !lock_guard_free by done.
  split; eexists; (split; [done|]); simpl; unfold setDescriptors;
    rewrite delete_id by done; by destruct (shared w).
Qed.

(** X11.  To replace the descriptor of a listener one removes the listener
    and adds it again: whatever the registry held for its binder, after
    [removeListener] and [addListener] it holds the new descriptor. *)
Theorem removeListener_addListener samplingArea stopLayerHandle l w :
  mutexHeld w = false ->
  exists w1 w2,
    removeListener l w = Some w1
    /\ addListener samplingArea stopLayerHandle l w1 = Some w2
    /\ mDescriptors (shared w2) !! asBinder l
       = Some {| area := samplingArea;
                 stopLayer := match stopLayerHandle with
                              | Some handle => owner handle
                              | None => None
                              end;
                 listener := l |}.
Proof.
  intros Hfree. unfold removeListener, addListener.
  rewrite lock_guard_free by done. eexists. eexists. split; [done|].
  rewrite lock_guard_free by done. split; [done|]. simpl.
  unfold emplace. rewrite lookup_delete_eq. by rewrite lookup_insert_eq.
Qed.

Lemma runCall_wf c w w' :
  registry_wf (shared w) -> runCall c w = Some w' -> registry_wf (shared w').
Proof.
  unfold registry_wf. intros Hwf Hrun.
  destruct c; simpl in Hrun;
    unfold addListener, removeListener, sampleNow, binderDied, lock_guard in Hrun;
    simpl in Hrun; destruct (mutexHeld w); try done; injection Hrun as <-; simpl.
  - unfold emplace. destruct (mDescriptors (shared w) !! asBinder _); [done|].
    by apply map_Forall_insert_2.
  - by apply map_Forall_delete.
  - done.
  - by apply map_Forall_delete.
Qed.

(** X12.  Whatever calls of the public entry points are made, in whatever
    order, every descriptor stays filed under the binder of its own
    listener; so no two descriptors of the registry have the same
    listener. *)
Theorem registry_wf_preserved cs :
  forall w w',
    registry_wf (shared w) ->
    runCalls cs w = Some w' ->
    registry_wf (shared w')
    /\ NoDup (listener <$> snapshot (shared w')).
Proof.
  assert (Hkeep : forall w w', registry_wf (shared w) -> runCalls cs w = Some w' ->
                               registry_wf (shared w')).
  { induction cs as [|c cs IH]; intros w w' Hwf Hrun.
    - by injection Hrun as <-.
    - simpl in Hrun. destruct (runCall c w) as [w1|] eqn:Hcall; [|done].
      simpl in Hrun. apply (IH w1 w'); [|done]. by apply (runCall_wf c w). }
  intros w w' Hwf Hrun. split; [by apply (Hkeep w)|].
  apply snapshot_listeners_NoDup. by apply (Hkeep w).
Qed.

(** X13.  Sample requests do not add up: any number of calls of
    [sampleNow] in a row, at least one, has the effect of a single call. *)
Theorem sampleNow_coalesces n w :
  runCalls (replicate (S n) CallSampleNow) w = sampleNow w.
Proof.
  revert w. induction n as [|n IH]; intros w.
  - simpl. by destruct (sampleNow w).
  - change (replicate (S (S n)) CallSampleNow)
      with (CallSampleNow :: replicate (S n) CallSampleNow).
    cbn [runCalls runCall].
    destruct (sampleNow w) as [w1|] eqn:Hfirst; [|done].
    cbn [mbind option_bind]. rewrite IH.
    unfold sampleNow, lock_guard in *.
    destruct (mutexHeld w); [done|]. by injection Hfirst as <-.
Qed.
End RegistryFacts.

(* ===================================================================== *)
(** ** More on the layer filter and on the pass *)

Section FilterFacts.
Context `{Collaborators}.

Lemma markIntersecting_any rect descriptors :
  forall start,
    (markIntersecting rect descriptors start).1
    = start.1 || existsb (fun d => intersect rect (area d)) descriptors.
Proof.
  unfold markIntersecting.
  induction descriptors as [|d descriptors IH]; intros [any marked].
  - simpl. by rewrite orb_false_r.
  - simpl. rewrite IH. destruct (intersect rect (area d)); simpl; [|done].
    by rewrite orb_true_r.
Qed.

Lemma markIntersecting_marks rect descriptors :
  forall start l,
    l ∈ (markIntersecting rect descriptors start).2
    <-> l ∈ start.2
        \/ exists d, d ∈ descriptors /\ intersect rect (area d) = true
                     /\ listener d = l.
Proof.
  intros start l. split; [apply markIntersecting_listeners|].
  revert start. unfold markIntersecting.
  induction descriptors as [|d descriptors IH]; intros start.
  - intros [Hin|(d & Hd & _)]; [done | by apply elem_of_nil in Hd].
  - intros Hcase. simpl. apply IH.
    destruct Hcase as [Hin|(d' & Hd' & Hhit & Hsame)].
    + left. destruct (intersect rect (area d)); [|done].
      simpl. apply elem_of_union. by right.
    + apply elem_of_cons in Hd' as [->|Hd'].
      * left. rewrite Hhit. simpl. apply elem_of_union. left.
        by apply elem_of_singleton.
      * right. by exists d'.
Qed.

(** One step of the filter on a layer that is not a stop layer, before any
    stop layer. *)
Lemma filterVisitor_open descriptors sampledArea t layer :
  stopLayerFound t = false ->
  isStopLayer descriptors layer = false ->
  stopLayerFound (filterVisitor descriptors sampledArea t layer) = false
  /\ rendered (filterVisitor descriptors sampledArea t layer)
     = rendered t
       ++ (if intersectsSample descriptors sampledArea layer
           then [layerId layer] else [])
  /\ forall l,
       l ∈ listeners (filterVisitor descriptors sampledArea t layer)
       <-> l ∈ listeners t
           \/ exists d, d ∈ descriptors
                        /\ intersect (transformed layer) sampledArea = true
                        /\ intersect (transformed layer) (area d) = true
                        /\ listener d = l.
Proof.
  intros Hopen Hlayer. unfold filterVisitor, intersectsSample.
  rewrite Hopen, Hlayer.
  destruct (intersect (transformed layer) sampledArea) eqn:Hsample; simpl.
  - pose proof (markIntersecting_any (transformed layer) descriptors
                  (false, listeners t)) as Hany.
    pose proof (markIntersecting_marks (transformed layer) descriptors
                  (false, listeners t)) as Hmarks.
    destruct (markIntersecting _ _ _) as [any marked]. simpl in Hany, Hmarks.
    rewrite <- Hany.
    destruct any; simpl; (split; [done|]); (split; [by rewrite ?app_nil_r|]);
      intros l; rewrite Hmarks; (split; (intros [Hin|Hex]; [by left|]); right).
    + destruct Hex as (d & Hd & Hhit & Hl). by exists d.
    + destruct Hex as (d & Hd & _ & Hhit & Hl). by exists d.
    + destruct Hex as (d & Hd & Hhit & Hl). by exists d.
    + destruct Hex as (d & Hd & _ & Hhit & Hl). by exists d.
  - split; [by destruct t|]. split; [by rewrite app_nil_r|].
    intros l. split; [by left|]. by intros [Hin|(d & _ & Hfalse & _)].
Qed.

Lemma traverse_open descriptors sampledArea ls :
  forall t,
    stopLayerFound t = false ->
    rendered (foldl (filterVisitor descriptors sampledArea) t ls)
    = rendered t
      ++ (layerId
            <$> filter (fun layer =>
                          intersectsSample descriptors sampledArea layer = true)
                       (beforeStop descriptors ls))
    /\ forall l,
         l ∈ listeners (foldl (filterVisitor descriptors sampledArea) t ls)
         <-> l ∈ listeners t
             \/ exists layer d,
                  layer ∈ beforeStop descriptors ls
                  /\ d ∈ descriptors
                  /\ intersect (transformed layer) sampledArea = true
                  /\ intersect (transformed layer) (area d) = true
                  /\ listener d = l.
Proof.
  induction ls as [|layer ls IH]; intros t Hopen.
  - simpl. rewrite app_nil_r. split; [done|]. intros l. split; [by left|].
    intros [Hin|(layer & d & Hlayer & _)]; [done | by apply elem_of_nil in Hlayer].
  - cbn [foldl beforeStop].
    destruct (isStopLayer descriptors layer) eqn:Hlayer.
    + rewrite filterVisitor_at_stop by done.
      rewrite traverse_stopped by done. simpl. rewrite app_nil_r.
      split; [done|]. intros l. split; [by left|].
      intros [Hin|(layer' & d & Hin & _)]; [done | by apply elem_of_nil in Hin].
    + destruct (filterVisitor_open descriptors sampledArea t layer Hopen Hlayer)
        as (Hopen' & Hrendered & Hmarked).
      destruct (IH _ Hopen') as [IHrendered IHmarked].
      rewrite IHrendered, Hrendered, filter_cons. cbv beta.
      split.
      * destruct (intersectsSample descriptors sampledArea layer); simpl.
        -- by rewrite <- app_assoc.
        -- by rewrite app_nil_r.
      * intros l. rewrite IHmarked, Hmarked. split.
        -- intros [[Hin|(d & Hd & Hs & Hhit & Hl)]
                  |(layer' & d & Hin & Hd & Hs & Hhit & Hl)].
           ++ by left.
           ++ right. exists layer, d. split; [left|done].
           ++ right. exists layer', d. split; [by right|done].
        -- intros [Hin|(layer' & d & Hin & Hd & Hs & Hhit & Hl)]; [by left; left|].
           apply elem_of_cons in Hin as [->|Hin].
           ++ left. right. by exists d.
           ++ right. by exists layer', d.
Qed.

(** X14.  What a traversal lets through and whom it marks: the layers
    handed on to the renderer are, in the order of the traversal, the
    layers before the first stop layer that intersect the sampled area and
    the area of some descriptor; the listeners marked are those of the
    descriptors whose area is intersected by such a layer. *)
Theorem traverseLayers_spec descriptors sampledArea ls :
  rendered (traverseLayers descriptors sampledArea ∅ ls)
  = layerId
      <$> filter (fun layer =>
                    intersectsSample descriptors sampledArea layer = true)
                 (beforeStop descriptors ls)
  /\ forall l,
       l ∈ listeners (traverseLayers descriptors sampledArea ∅ ls)
       <-> exists layer d,
             layer ∈ beforeStop descriptors ls
             /\ d ∈ descriptors
             /\ intersect (transformed layer) sampledArea = true
             /\ intersect (transformed layer) (area d) = true
             /\ listener d = l.
Proof.
  unfold traverseLayers.
  destruct (traverse_open descriptors sampledArea ls
              {| stopLayerFound := false; listeners := ∅; rendered := [] |}
              eq_refl) as [Hrendered Hmarked].
  split; [done|]. intros l. rewrite Hmarked. simpl. split; [|by right].
  intros [Hin|Hex]; [by apply not_elem_of_empty in Hin | done].
Qed.

(** X15.  The active descriptors of a pass over a well-formed registry are
    the registered descriptors whose area is intersected by a layer that
    is visited before the first stop layer and intersects the sampled
    area. *)
Theorem passActive_spec env s d :
  registry_wf s ->
  d ∈ passActive env s
  <-> d ∈ snapshot s
      /\ exists layer,
           layer ∈ beforeStop (snapshot s) (layers env)
           /\ intersect (transformed layer)
                        (regionBounds (area <$> snapshot s)) = true
           /\ intersect (transformed layer) (area d) = true.
Proof.
  intros Hwf. unfold passActive, activeOf, traverseLayers.
  rewrite list_elem_of_filter.
  destruct (traverse_open (snapshot s) (regionBounds (area <$> snapshot s))
              (layers env)
              {| stopLayerFound := false; listeners := ∅; rendered := [] |}
              eq_refl) as [_ Hmarked].
  rewrite Hmarked. simpl. split.
  - intros [[Hin|(layer & d' & Hlayer & Hd' & Hs & Hhit & Hsame)] Hd];
      [by apply not_elem_of_empty in Hin|].
    split; [done|]. exists layer. split; [done|]. split; [done|].
    by rewrite <- (same_listener_same_descriptor s d d' Hwf Hd Hd' Hsame).
  - intros [Hd (layer & Hlayer & Hs & Hhit)]. split; [|done].
    right. by exists layer, d.
Qed.

(** X16.  When the buffer can be locked, a pass that starts with the mutex
    held makes exactly one callback for each active descriptor, in the
    order of the snapshot, with the result of [sampleArea] on the area of
    the descriptor moved by the corner of the sampled area. *)
Theorem captureSample_delivers_samples env w data :
  mutexHeld w = true ->
  lockedData (captured env) = Some data ->
  exists w' events,
    captureSample env w = Some w'
    /\ trace w' = trace w ++ events
    /\ callbacks events
       = (fun d =>
            (listener d,
             sampleArea data (getStride (captured env))
               (Rect.minus (area d)
                  (Rect.leftTop (regionBounds (area <$> snapshot (shared w)))))))
         <$> passActive env (shared w).
Proof.
  intros Hheld Hlock.
  assert (Hlumas : passLumas env (shared w)
                   = (fun d => sampleArea data (getStride (captured env))
                                 (Rect.minus (area d)
                                    (Rect.leftTop
                                       (regionBounds
                                          (area <$> snapshot (shared w))))))
                     <$> passActive env (shared w))
    by (unfold passLumas, sampleBuffer; by rewrite Hlock).
  assert (Hzip : forall (f : Descriptor -> outcome) (ds : list Descriptor),
             zip (listener <$> ds) (f <$> ds) = (fun d => (listener d, f d)) <$> ds).
  { intros f ds. induction ds as [|d ds IH]; [done|]. simpl. f_equal. apply IH. }
  destruct (decide (mDescriptors (shared w) = ∅)) as [Hempty|Hne].
  - exists w, []. rewrite captureSample_empty, app_nil_r by done.
    by rewrite passActive_empty.
  - destruct (captureSample_run env w Hheld Hne)
      as (w1 & during & _ & _ & Htrace & Hquiet & ->).
    eexists. eexists. split; [done|]. simpl. rewrite Htrace.
    split; [rewrite <- app_assoc; reflexivity|].
    assert (Hpre : forall r, callbacks [MutexUnlock; CaptureScreenCore r] = [])
      by done.
    assert (Hpost : forall after,
               callbacks (MutexLock :: after) = callbacks after) by done.
    rewrite !callbacks_app, Hpre, Hquiet, Hpost. simpl app.
    rewrite decide_True by (by rewrite Hlumas, length_fmap).
    by rewrite callbacks_deliveries, Hlumas, Hzip.
Qed.
End FilterFacts.

(* ===================================================================== *)
(** ** The sampling thread *)

Section ThreadFacts.
Context `{Collaborators}.

Lemma runRequest_free r w :
  mutexHeld w = false ->
  exists w', runRequest r w = Some w' /\ mutexHeld w' = false.
Proof.
  intros Hfree. destruct r as [c|]; simpl.
  - destruct (runCall_free c w Hfree) as (w' & Hrun & Hfree' & _). by exists w'.
  - unfold destroy. rewrite lock_guard_free by done. by eexists.
Qed.

Lemma runRequests_free rs :
  forall w,
    mutexHeld w = false ->
    exists w', runRequests rs w = Some w' /\ mutexHeld w' = false.
Proof.
  induction rs as [|r rs IH]; intros w Hfree; [by exists w|].
  destruct (runRequest_free r w Hfree) as (w1 & Hrun & Hfree1).
  destruct (IH w1 Hfree1) as (w2 & Hruns & Hfree2).
  exists w2. simpl. rewrite Hrun. done.
Qed.

(** No request sets [mRunning] again, and the destruction clears it. *)
Lemma runRequest_running r w w' :
  runRequest r w = Some w' ->
  mRunning (shared w') = (if r is Destroy then false else mRunning (shared w)).
Proof.
  destruct r as [[]|]; simpl;
    unfold addListener, removeListener, sampleNow, binderDied, destroy, lock_guard;
    simpl; destruct (mutexHeld w); try done; by intros [= <-].
Qed.

Lemma runRequests_stopped rs :
  forall w w',
    runRequests rs w = Some w' ->
    mRunning (shared w) = false \/ Destroy ∈ rs ->
    mRunning (shared w') = false.
Proof.
  induction rs as [|r rs IH]; intros w w' Hrun Hstop.
  - injection Hrun as <-. destruct Hstop as [Hstop|Hin]; [done|].
    by apply elem_of_nil in Hin.
  - simpl in Hrun. destruct (runRequest r w) as [w1|] eqn:Hfirst; [|done].
    simpl in Hrun. apply (IH w1 w' Hrun).
    pose proof (runRequest_running r w w1 Hfirst) as Hr.
    destruct Hstop as [Hstop|Hin].
    + left. rewrite Hr, Hstop. by destruct r.
    + apply elem_of_cons in Hin as [<-|Hin]; [by left | by right].
Qed.

(** The calls made during a capture leave [mRunning] alone, and a call of
    [sampleNow] among them leaves [mSampleRequested] set. *)
Lemma runCalls_flags cs :
  forall w w',
    runCalls cs w = Some w' ->
    mRunning (shared w') = mRunning (shared w)
    /\ (mSampleRequested (shared w) = true \/ CallSampleNow ∈ cs ->
        mSampleRequested (shared w') = true).
Proof.
  induction cs as [|c cs IH]; intros w w' Hrun.
  - injection Hrun as <-. split; [done|].
    intros [Hset|Hin]; [done | by apply elem_of_nil in Hin].
  - simpl in Hrun. destruct (runCall c w) as [w1|] eqn:Hfirst; [|done].
    simpl in Hrun. destruct (IH w1 w' Hrun) as [Hrunning Hrequested].
    assert (Hstep : mRunning (shared w1) = mRunning (shared w)
                    /\ (mSampleRequested (shared w) = true \/ c = CallSampleNow ->
                        mSampleRequested (shared w1) = true)).
    { destruct c; simpl in Hfirst;
        unfold addListener, removeListener, sampleNow, binderDied, lock_guard
          in Hfirst;
        simpl in Hfirst; destruct (mutexHeld w); try done;
        injection Hfirst as <-; simpl; (split; [done|]);
        intros [Hset|Heq]; done. }
    destruct Hstep as [Hrunning1 Hrequested1].
    split; [by rewrite Hrunning|].
    intros [Hset|Hin]; apply Hrequested.
    + left. apply Hrequested1. by left.
    + apply elem_of_cons in Hin as [<-|Hin]; [|by right].
      left. apply Hrequested1. by right.
Qed.





Lemma conditionWait_awake batches w :
  wakeUp (shared w) = true -> conditionWait batches w = Woken batches w.
Proof. intros Hwake. destruct batches; simpl; by rewrite Hwake. Qed.

Lemma captureSample_quiet env w :
  mutexHeld w = true ->
  reentrant env = [] ->
  exists w', captureSample env w = Some w' /\ shared w' = shared w
             /\ mutexHeld w' = true.
Proof.
  intros Hheld Hquiet.
  destruct (decide (mDescriptors (shared w) = ∅)) as [Hempty|Hne].
  - exists w. by rewrite captureSample_empty.
  - destruct (captureSample_run env w Hheld Hne)
      as (w1 & during & Hcalls & _ & _ & _ & ->).
    rewrite Hquiet in Hcalls. injection Hcalls as <-. by eexists.
Qed.

Lemma sample_requests_set_flag n s held tr :
  runRequests (replicate (S n) (Public CallSampleNow))
    {| shared := s; mutexHeld := false; trace := tr |}
  = Some {| shared := setSampleRequested true s; mutexHeld := held && false;
            trace := tr |}.
Proof.
  rewrite andb_false_r. revert s. induction n as [|n IH]; intros s; [done|].
  change (replicate (S (S n)) (Public CallSampleNow))
    with (Public CallSampleNow :: replicate (S n) (Public CallSampleNow)).
  cbn [runRequests runRequest runCall]. unfold sampleNow, lock_guard.
  cbn [mutexHeld shared trace mbind option_bind]. by rewrite IH.
Qed.

(** X18.  A thread that sleeps with no sample requested returns as soon as
    it wakes up after the destruction, and makes no pass: it adds nothing
    to the trace and changes nothing of the shared state, even if samples
    were requested in the same batch as the destruction, and whatever the
    script holds after that batch. *)
Theorem threadMain_shutdown captures batch batches w :
  mutexHeld w = false ->
  mRunning (shared w) = true ->
  mSampleRequested (shared w) = false ->
  Destroy ∈ batch ->
  exists w1 w',
    runRequests batch w = Some w1
    /\ threadMain captures (batch :: batches) w = Finished w'
    /\ shared w' = shared w1
    /\ trace w' = trace w1
    /\ mRunning (shared w') = false.
Proof.
  intros Hfree Hrunning Hidle Hdestroy.
  destruct w as [s held tr]. simpl in *. subst held.
  destruct (runRequests_free batch {| shared := s; mutexHeld := false; trace := tr |}
              eq_refl) as (w1 & Hrun & Hfree1).
  pose proof (runRequests_stopped batch _ w1 Hrun (or_intror Hdestroy)) as Hstopped.
  exists w1. eexists. split; [done|].
  unfold threadMain, setMutex. cbn [mutexHeld length threadLoop shared trace].
  rewrite Hrunning, Hidle.
  cbn [conditionWait]. unfold wakeUp at 1, setMutex. cbn [shared trace].
  rewrite Hrunning, Hidle. cbn [orb negb]. rewrite Hrun.
  rewrite conditionWait_awake
    by (unfold wakeUp; cbn [shared]; rewrite Hstopped; apply orb_true_r).
  rewrite Nat.add_succ_r. cbn [threadLoop shared]. rewrite Hstopped. done.
Qed.

(** X19.  Sample requests made while the thread sleeps lead to one pass,
    however many they are: the thread wakes up, clears the flag, makes the
    pass it would make from the state before the requests, and, when no
    thread calls in during the capture, goes back to sleep. *)
Theorem threadMain_coalesces n env captures w :
  mutexHeld w = false ->
  mRunning (shared w) = true ->
  mSampleRequested (shared w) = false ->
  reentrant env = [] ->
  exists w2,
    captureSample env (setMutex true w) = Some w2
    /\ threadMain (env :: captures) [replicate (S n) (Public CallSampleNow)] w
       = Asleep (setMutex false w2).
Proof.
  intros Hfree Hrunning Hidle Hquiet.
  destruct w as [[registry requested running] held tr]. simpl in *. subst.
  destruct (captureSample_quiet env
              {| shared := {| mDescriptors := registry; mSampleRequested := false;
                              mRunning := true |};
                 mutexHeld := true; trace := tr |} eq_refl Hquiet)
    as (w2 & Hpass & Hshared & Hheld2).
  destruct w2 as [s2 held2 tr2]. cbn [shared mutexHeld] in Hshared, Hheld2.
  subst s2 held2. eexists. split; [exact Hpass|].
  unfold setMutex in *. cbn [shared trace mutexHeld] in *.
  unfold threadMain, setMutex.
  cbn [mutexHeld length threadLoop shared trace mRunning mSampleRequested].
  cbn [conditionWait]. unfold wakeUp at 1, setMutex.
  cbn [shared trace mRunning mSampleRequested orb negb].
  rewrite (sample_requests_set_flag n _ false).
  unfold wakeUp at 1, setShared, setSampleRequested.
  cbn [Nat.add threadLoop shared trace mutexHeld andb orb mRunning
       mSampleRequested mDescriptors].
  unfold setShared, setSampleRequested.
  cbn [shared trace mutexHeld mRunning mSampleRequested mDescriptors].
  rewrite Hpass.
  reflexivity.
Qed.

(** X20.  A sample requested while a capture runs is not lost: the flag
    was cleared before the capture, the request sets it again, and at the
    end of the pass the thread does not sleep but has the next pass
    due. *)
Theorem threadMain_request_during_capture env w :
  mutexHeld w = false ->
  mRunning (shared w) = true ->
  mSampleRequested (shared w) = true ->
  mDescriptors (shared w) <> ∅ ->
  CallSampleNow ∈ reentrant env ->
  exists w',
    captureSample env (setShared (setSampleRequested false) (setMutex true w))
    = Some w'
    /\ threadMain [env] [] w = Starved w'
    /\ mSampleRequested (shared w') = true.
Proof.
  intros Hfree Hrunning Hrequested Hne Hcall.
  destruct (captureSample_run env
              (setShared (setSampleRequested false) (setMutex true w))
              eq_refl Hne)
    as (w1 & during & Hcalls & _ & _ & _ & Hpass).
  destruct (runCalls_flags _ _ _ Hcalls) as [Hrunning1 Hrequested1].
  cbn [shared setShared setMutex setSampleRequested mRunning] in Hrunning1.
  specialize (Hrequested1 (or_intror Hcall)).
  eexists. split; [exact Hpass|].
  unfold threadMain. rewrite Hfree. cbn [length Nat.add threadLoop].
  unfold setMutex, setShared in *. cbn [shared mutexHeld trace] in *.
  rewrite Hrunning, Hrequested, Hpass.
  rewrite conditionWait_awake
    by (unfold wakeUp; cbn [shared]; by rewrite Hrequested1).
  cbn [shared]. rewrite Hrunning1, Hrunning, Hrequested1. done.
Qed.

Lemma runRequests_app rs1 rs2 w :
  runRequests (rs1 ++ rs2) w = w1 ← runRequests rs1 w; runRequests rs2 w1.
Proof.
  revert w. induction rs1 as [|r rs1 IH]; intros w; [done|].
  simpl. destruct (runRequest r w) as [w1|]; [apply IH | done].
Qed.

Lemma registryRequests_flags rs :
  forall w w',
    Forall (fun r => registryRequest r = true) rs ->
    runRequests rs w = Some w' ->
    mSampleRequested (shared w') = mSampleRequested (shared w)
    /\ mRunning (shared w') = mRunning (shared w).
Proof.
  induction rs as [|r rs IH]; intros w w' Hquiet Hrun.
  - by injection Hrun as <-.
  - apply Forall_cons in Hquiet as [Hr Hquiet].
    simpl in Hrun. destruct (runRequest r w) as [w1|] eqn:Hfirst; [|done].
    simpl in Hrun. destruct (IH w1 w' Hquiet Hrun) as [-> ->].
    destruct r as [[]|]; try done; simpl in Hfirst;
      unfold addListener, removeListener, binderDied, lock_guard in Hfirst;
      simpl in Hfirst; destruct (mutexHeld w); try done;
      by injection Hfirst as <-.
Qed.

Lemma conditionWait_registry_only batches :
  forall w,
    wakeUp (shared w) = false ->
    Forall (Forall (fun r => registryRequest r = true)) batches ->
    exists w1,
      runRequests (concat batches) (setMutex false w) = Some w1
      /\ conditionWait batches w = Sleeping (setMutex false w1)
      /\ wakeUp (shared w1) = false.
Proof.
  induction batches as [|batch batches IH]; intros w Hidle Hquiet.
  - exists (setMutex false w). simpl. by rewrite Hidle.
  - apply Forall_cons in Hquiet as [Hbatch Hquiet].
    destruct (runRequests_free batch (setMutex false w) eq_refl)
      as (w1 & Hrun & Hfree).
    destruct (registryRequests_flags batch _ w1 Hbatch Hrun) as [Hrequested Hrunning].
    assert (Hidle1 : wakeUp (shared (setMutex true w1)) = false)
      by (unfold wakeUp in *; simpl in *; by rewrite Hrequested, Hrunning).
    destruct (IH (setMutex true w1) Hidle1 Hquiet) as (w2 & Hruns & Hwait & Hidle2).
    exists w2. cbn [concat conditionWait]. rewrite Hidle, Hrun, runRequests_app, Hrun.
    cbn [mbind option_bind]. split; [|done].
    destruct w1 as [s1 held1 tr1]. simpl in Hfree. by subst held1.
Qed.

(** X21.  Registering and removing listeners never starts a pass: while
    the thread sleeps with no sample requested, whatever calls of
    [addListener], [removeListener] and [binderDied] the other threads
    make, the thread stays asleep and adds nothing of its own to the
    shared state or to the trace. *)
Theorem threadMain_registry_calls_start_no_pass captures batches w :
  mutexHeld w = false ->
  mRunning (shared w) = true ->
  mSampleRequested (shared w) = false ->
  Forall (Forall (fun r => registryRequest r = true)) batches ->
  exists w1,
    runRequests (concat batches) w = Some w1
    /\ threadMain captures batches w = Asleep w1.
Proof.
  intros Hfree Hrunning Hidle Hquiet.
  destruct w as [s held tr]. simpl in *. subst held.
  destruct (conditionWait_registry_only batches
              {| shared := s; mutexHeld := true; trace := tr |})
    as (w1 & Hrun & Hwait & Hidle1); [|done|].
  { unfold wakeUp. simpl. by rewrite Hrunning, Hidle. }
  pose proof (runRequests_free (concat batches)
                {| shared := s; mutexHeld := false; trace := tr |} eq_refl)
    as (w1' & Hrun' & Hfree1).
  unfold setMutex in Hrun. cbn [shared trace] in Hrun.
  rewrite Hrun in Hrun'. injection Hrun' as <-.
  exists w1. split; [done|].
  unfold threadMain, setMutex. cbn [mutexHeld threadLoop shared trace].
  rewrite Hrunning, Hidle, Hwait.
  destruct w1 as [s1 held1 tr1]. simpl in Hfree1. by subst held1.
Qed.
End ThreadFacts.

(* ===================================================================== *)
(** ** The further properties on the examples *)

Lemma addListener_registers_witness :
  exists w',
    @addListener exampleCollaborators (Rect.make 0 0 9 9) (Some boundaryHandle)
                 3%positive callerWorld = Some w'
    /\ mDescriptors (shared w') !! 3%positive
       = Some {| area := Rect.make 0 0 9 9; stopLayer := Some 7%positive;
                 listener := 3%positive |}
    /\ trace w' = trace callerWorld ++ [LinkToDeath 3%positive].
Proof.
  apply (@addListener_registers exampleCollaborators (Rect.make 0 0 9 9)
           (Some boundaryHandle) 3%positive callerWorld); reflexivity.
Defined.

Lemma addListener_removeListener_witness :
  exists w1 w2,
    @addListener exampleCollaborators (Rect.make 0 0 9 9) None 3%positive
                 callerWorld = Some w1
    /\ @removeListener exampleCollaborators 3%positive w1 = Some w2
    /\ shared w2 = shared callerWorld.
Proof.
  apply (@addListener_removeListener exampleCollaborators (Rect.make 0 0 9 9)
           None 3%positive callerWorld); reflexivity.
Defined.

Lemma removeListener_absent_witness :
  (exists w', @removeListener exampleCollaborators 3%positive callerWorld = Some w'
              /\ shared w' = shared callerWorld /\ trace w' = trace callerWorld)
  /\ (exists w', binderDied 5%positive callerWorld = Some w'
                 /\ shared w' = shared callerWorld
                 /\ trace w' = trace callerWorld).
Proof.
  apply (@removeListener_absent exampleCollaborators 3%positive 5%positive
           callerWorld); reflexivity.
Defined.

Lemma removeListener_addListener_witness :
  exists w1 w2,
    @removeListener exampleCollaborators 1%positive callerWorld = Some w1
    /\ @addListener exampleCollaborators (Rect.make 0 0 99 99) None 1%positive w1
       = Some w2
    /\ mDescriptors (shared w2) !! 1%positive
       = Some {| area := Rect.make 0 0 99 99; stopLayer := None;
                 listener := 1%positive |}.
Proof.
  apply (@removeListener_addListener exampleCollaborators (Rect.make 0 0 99 99)
           None 1%positive callerWorld); reflexivity.
Defined.

Lemma registry_wf_preserved_witness :
  @registry_wf exampleCollaborators
    (shared (default callerWorld
               (@runCalls exampleCollaborators exampleCalls callerWorld)))
  /\ NoDup (listener
              <$> snapshot
                    (shared (default callerWorld
                               (@runCalls exampleCollaborators exampleCalls
                                          callerWorld)))).
Proof.
  apply (@registry_wf_preserved exampleCollaborators exampleCalls callerWorld).
  - exact exampleState_wf.
  - vm_compute. reflexivity.
Defined.

Lemma passActive_spec_witness :
  descriptorA ∈ @passActive exampleCollaborators exampleCapture exampleState
  <-> descriptorA ∈ snapshot exampleState
      /\ exists layer,
           layer ∈ beforeStop (snapshot exampleState) (layers exampleCapture)
           /\ rectIntersect (transformed layer)
                            (boundingBox (area <$> snapshot exampleState)) = true
           /\ rectIntersect (transformed layer) (area descriptorA) = true.
Proof.
  apply (@passActive_spec exampleCollaborators exampleCapture exampleState
           descriptorA).
  exact exampleState_wf.
Defined.

Lemma captureSample_delivers_samples_witness :
  exists w' events,
    @captureSample exampleCollaborators exampleCapture workerWorld = Some w'
    /\ trace w' = trace workerWorld ++ events
    /\ callbacks events
       = (fun d =>
            (listener d,
             sampleArea (replicate 225 white) (getStride (captured exampleCapture))
               (Rect.minus (area d)
                  (Rect.leftTop
                     (boundingBox (area <$> snapshot (shared workerWorld)))))))
         <$> @passActive exampleCollaborators exampleCapture (shared workerWorld).
Proof.
  apply (@captureSample_delivers_samples exampleCollaborators exampleCapture
           workerWorld (replicate 225 white)); reflexivity.
Defined.


Lemma threadMain_shutdown_witness :
  exists w1 w',
    @runRequests exampleCollaborators [Public CallSampleNow; Destroy] callerWorld
    = Some w1
    /\ @threadMain exampleCollaborators [exampleCapture]
         ([Public CallSampleNow; Destroy] :: [[Public CallSampleNow]]) callerWorld
       = Finished w'
    /\ shared w' = shared w1
    /\ trace w' = trace w1
    /\ mRunning (shared w') = false.
Proof.
  apply (@threadMain_shutdown exampleCollaborators [exampleCapture]
           [Public CallSampleNow; Destroy] [[Public CallSampleNow]] callerWorld).
  - reflexivity.
  - reflexivity.
  - reflexivity.
  - right. left.
Defined.

Lemma threadMain_coalesces_witness :
  exists w2,
    @captureSample exampleCollaborators quietCapture (setMutex true callerWorld)
    = Some w2
    /\ @threadMain exampleCollaborators [quietCapture]
         [replicate 3 (Public CallSampleNow)] callerWorld
       = Asleep (setMutex false w2).
Proof.
  apply (@threadMain_coalesces exampleCollaborators 2 quietCapture []
           callerWorld); reflexivity.
Defined.

Lemma threadMain_request_during_capture_witness :
  exists w',
    @captureSample exampleCollaborators exampleCapture
      (setShared (setSampleRequested false) (setMutex true requestedWorld))
    = Some w'
    /\ @threadMain exampleCollaborators [exampleCapture] [] requestedWorld
       = Starved w'
    /\ mSampleRequested (shared w') = true.
Proof.
  apply (@threadMain_request_during_capture exampleCollaborators exampleCapture
           requestedWorld).
  - reflexivity.
  - reflexivity.
  - reflexivity.
  - exact exampleState_not_empty.
  - left.
Defined.

Lemma threadMain_registry_calls_start_no_pass_witness :
  exists w1,
    @runRequests exampleCollaborators
      (concat [[Public (CallRemoveListener 1%positive)]; [];
               [Public (CallBinderDied 2%positive)]]) callerWorld
    = Some w1
    /\ @threadMain exampleCollaborators [exampleCapture]
         [[Public (CallRemoveListener 1%positive)]; [];
          [Public (CallBinderDied 2%positive)]] callerWorld
       = Asleep w1.
Proof.
  apply (@threadMain_registry_calls_start_no_pass exampleCollaborators
           [exampleCapture]
           [[Public (CallRemoveListener 1%positive)]; [];
            [Public (CallBinderDied 2%positive)]] callerWorld).
  - reflexivity.
  - reflexivity.
  - reflexivity.
  - repeat constructor.
Defined.
